(** * lc_find: the launch-configuration query module

    A shallow embedding of
    [roles/delete-old-launch-configurations/library/lc_find.py] and the
    properties of its fetch / filter / sort / slice pipeline.

    The program is a single Python function, [main].  It is embedded as a
    computation in a small exception monad.  The library calls it makes
    ([json.loads], [re.compile], [regex.match], [int], [list.sort], list
    slicing, subscripting and iteration) are embedded next to it, each on
    a stated fragment of its input on which the interpreters the module
    runs under (CPython 2.7, and 3.6 or later) agree; outside that
    fragment the embedding answers [Unmodelled] and no theorem speaks
    about the run.

    Strings are sequences of characters with code points below 256
    ([Stdlib]'s [string]); they are compared by code point. *)

From Stdlib Require Import ZArith List String Ascii Bool Lia.
From Stdlib Require Import Sorted Permutation.
Import ListNotations.

Local Open Scope string_scope.
Local Open Scope list_scope.

(** ** Exceptions and the result of a computation *)

Inductive exception : Type :=
| CalledProcessError (returncode : Z)
| OSError
| ValueError
| KeyError (key : string)
| TypeError
| re_error.

Inductive res (A : Type) : Type :=
| Ok (a : A)
| Raise (e : exception)
| Unmodelled.

Arguments Ok {A} a.
Arguments Raise {A} e.
Arguments Unmodelled {A}.

Definition bind {A B : Type} (c : res A) (k : A -> res B) : res B :=
  match c with
  | Ok a => k a
  | Raise e => Raise e
  | Unmodelled => Unmodelled
  end.

Notation "x <- c ;; k" := (bind c (fun x => k))
  (at level 61, c at next level, right associativity).
Notation "' pat <- c ;; k" := (bind c (fun x => match x with pat => k end))
  (at level 61, pat pattern, c at next level, right associativity).

(** A [for] loop whose body computes one element per item and may raise:
    the first exception ends the loop. *)
Fixpoint for_each {A B : Type} (body : A -> res B) (l : list A) : res (list B) :=
  match l with
  | [] => Ok []
  | x :: l' => y <- body x ;; ys <- for_each body l' ;; Ok (y :: ys)
  end.

(** A list comprehension [[x for x in l if test(x)]] whose test may raise. *)
Fixpoint comprehension {A : Type} (test : A -> res bool) (l : list A) : res (list A) :=
  match l with
  | [] => Ok []
  | x :: l' =>
      b <- test x ;; ys <- comprehension test l' ;;
      Ok (if b then x :: ys else ys)
  end.

(** ** Characters *)

Definition code (c : ascii) : Z := Z.of_N (N_of_ascii c).

Definition is_digit (c : ascii) : bool := (48 <=? code c)%Z && (code c <=? 57)%Z.

Definition is_alpha (c : ascii) : bool :=
  ((65 <=? code c)%Z && (code c <=? 90)%Z) || ((97 <=? code c)%Z && (code c <=? 122)%Z).

(** The six ASCII characters [str.strip] and [int] treat as blanks. *)
Definition is_space (c : ascii) : bool :=
  ((9 <=? code c)%Z && (code c <=? 13)%Z) || (code c =? 32)%Z.

Definition is_ascii (c : ascii) : bool := (code c <? 128)%Z.

(** ** Truth values of parameters

    [if name_regex:], [sort and sort_start and ...]: [None], [False] and
    the empty string are false, everything else is true. *)

Definition truthy_str (o : option string) : bool :=
  match o with
  | Some s => negb (s =? "")
  | None => false
  end.

Definition truthy_bool (o : option bool) : bool :=
  match o with
  | Some b => b
  | None => false
  end.

(** ** [int(s)] on a string

    Blanks are stripped on both sides, then an optional sign and a
    non-empty run of decimal digits must remain; anything else raises
    [ValueError].  Left out of the model: the underscore (a digit
    separator since Python 3.6), the characters that only some releases
    count as blanks (code points 28 to 31 and above 127), and literals
    longer than 4300 characters (refused since Python 3.11). *)

Fixpoint lstrip (s : list ascii) : list ascii :=
  match s with
  | c :: s' => if is_space c then lstrip s' else s
  | [] => []
  end.

Definition strip (s : list ascii) : list ascii := rev (lstrip (rev (lstrip s))).

Definition digit_value (c : ascii) : Z := (code c - 48)%Z.

Definition decimal (ds : list ascii) : res Z :=
  match ds with
  | [] => Raise ValueError
  | _ =>
      if forallb is_digit ds
      then Ok (fold_left (fun acc d => (10 * acc + digit_value d)%Z) ds 0%Z)
      else Raise ValueError
  end.

Definition int_unmodelled (c : ascii) : bool :=
  (code c =? 95)%Z || ((28 <=? code c)%Z && (code c <=? 31)%Z) || negb (is_ascii c).

Definition int (s : string) : res Z :=
  let cs := list_ascii_of_string s in
  if existsb int_unmodelled cs || (4300 <? Z.of_nat (List.length cs))%Z then Unmodelled
  else
    match strip cs with
    | "+"%char :: ds => decimal ds
    | "-"%char :: ds => z <- decimal ds ;; Ok (- z)%Z
    | ds => decimal ds
    end.

(** ** List slicing [l[start:stop]]

    A negative bound counts from the end; after that a bound below 0
    becomes 0 and a bound above [len(l)] becomes [len(l)]. *)

Definition slice_index (len i : Z) : Z :=
  if (i <? 0)%Z then Z.max 0 (i + len) else Z.min i len.

Definition slice {A : Type} (start stop : option Z) (l : list A) : list A :=
  let len := Z.of_nat (List.length l) in
  let lo := match start with Some i => slice_index len i | None => 0%Z end in
  let hi := match stop with Some j => slice_index len j | None => len end in
  firstn (Z.to_nat (hi - lo)) (skipn (Z.to_nat lo) l).

(** ** JSON values

    What [json.loads] returns: [None], a boolean, a number (kept as its
    literal, the program never computes with one), a string, a list or a
    dictionary.  A dictionary is a list of bindings read from the left:
    the first binding of a key is the one in force. *)

#[local] Set Warnings "-register-all".

Inductive json : Type :=
| JNull
| JBool (b : bool)
| JNum (literal : string)
| JStr (s : string)
| JArr (items : list json)
| JObj (members : list (string * json)).

Fixpoint dict_get {V : Type} (k : string) (m : list (string * V)) : option V :=
  match m with
  | [] => None
  | (k', v) :: m' => if k' =? k then Some v else dict_get k m'
  end.

(** [d[k] = v]: an existing key keeps its place and takes the new value. *)
Fixpoint dict_set {V : Type} (k : string) (v : V) (m : list (string * V)) : list (string * V) :=
  match m with
  | [] => [(k, v)]
  | (k', v') :: m' => if k' =? k then (k, v) :: m' else (k', v') :: dict_set k v m'
  end.

(** [v[key]] for a string [key]. *)
Definition getitem (v : json) (key : string) : res json :=
  match v with
  | JObj m =>
      match dict_get key m with
      | Some x => Ok x
      | None => Raise (KeyError key)
      end
  | _ => Raise TypeError
  end.

(** The items [for lc in v] runs over: the elements of a list, the keys
    of a dictionary, the characters of a string; anything else is not
    iterable.  (The order of a dictionary's keys differs between
    releases; the loop of [main] fails on whichever key comes first.) *)
Definition iterate (v : json) : res (list json) :=
  match v with
  | JArr l => Ok l
  | JObj m => Ok (map (fun kv => JStr (fst kv)) m)
  | JStr s => Ok (map (fun c => JStr (String c "")) (list_ascii_of_string s))
  | _ => Raise TypeError
  end.

(** ** [json.loads]

    The decoder of the [json] module in its default, strict mode, on
    texts of ASCII characters other than NUL.  Left out of the model:
    other characters (their decoding depends on the release), the
    [\uXXXX] escape, number literals longer than 4300 characters and
    documents nested more than 100 deep. *)

Module Json.

Definition is_ws (c : ascii) : bool :=
  (code c =? 32)%Z || (code c =? 9)%Z || (code c =? 10)%Z || (code c =? 13)%Z.

Fixpoint skip_ws (s : list ascii) : list ascii :=
  match s with
  | c :: s' => if is_ws c then skip_ws s' else s
  | [] => []
  end.

(** [starts w s]: what follows [w] in [s], when [s] starts with [w]. *)
Fixpoint starts (w s : list ascii) : option (list ascii) :=
  match w, s with
  | [], _ => Some s
  | a :: w', b :: s' => if Ascii.eqb a b then starts w' s' else None
  | _ :: _, [] => None
  end.

(** The body of a string literal, after its opening quote. *)
Fixpoint scanstring (s acc : list ascii) : res (string * list ascii) :=
  match s with
  | [] => Raise ValueError
  | c :: r =>
      if (code c =? 34)%Z then Ok (string_of_list_ascii (rev acc), r)
      else if (code c =? 92)%Z then
        match r with
        | [] => Raise ValueError
        | e :: r' =>
            if (code e =? 34)%Z || (code e =? 92)%Z || (code e =? 47)%Z
            then scanstring r' (e :: acc)
            else if (code e =? 98)%Z then scanstring r' (ascii_of_nat 8 :: acc)
            else if (code e =? 102)%Z then scanstring r' (ascii_of_nat 12 :: acc)
            else if (code e =? 110)%Z then scanstring r' (ascii_of_nat 10 :: acc)
            else if (code e =? 114)%Z then scanstring r' (ascii_of_nat 13 :: acc)
            else if (code e =? 116)%Z then scanstring r' (ascii_of_nat 9 :: acc)
            else if (code e =? 117)%Z then Unmodelled
            else Raise ValueError
        end
      else if (code c <? 32)%Z then Raise ValueError
      else scanstring r (c :: acc)
  end.

Fixpoint span_digits (s : list ascii) : list ascii * list ascii :=
  match s with
  | c :: s' =>
      if is_digit c then let (ds, r) := span_digits s' in (c :: ds, r) else ([], s)
  | [] => ([], [])
  end.

(** [0|[1-9]\d*]: the integer part of a number. *)
Definition scan_int (s : list ascii) : option (list ascii * list ascii) :=
  match s with
  | c :: s' =>
      if (code c =? 48)%Z then Some ([c], s')
      else if is_digit c then let (ds, r) := span_digits s' in Some (c :: ds, r)
      else None
  | [] => None
  end.

(** [(\.\d+)?]. *)
Definition scan_frac (s : list ascii) : list ascii * list ascii :=
  match s with
  | c :: s' =>
      if (code c =? 46)%Z then
        match span_digits s' with
        | ([], _) => ([], s)
        | (ds, r) => (c :: ds, r)
        end
      else ([], s)
  | [] => ([], [])
  end.

(** [([eE][-+]?\d+)?]. *)
Definition scan_exp (s : list ascii) : list ascii * list ascii :=
  match s with
  | c :: s' =>
      if (code c =? 101)%Z || (code c =? 69)%Z then
        match s' with
        | g :: s'' =>
            if (code g =? 45)%Z || (code g =? 43)%Z then
              match span_digits s'' with
              | ([], _) => ([], s)
              | (ds, r) => (c :: g :: ds, r)
              end
            else
              match span_digits s' with
              | ([], _) => ([], s)
              | (ds, r) => (c :: ds, r)
              end
        | [] => ([], s)
        end
      else ([], s)
  | [] => ([], [])
  end.

Definition scan_number (s : list ascii) : option (list ascii * list ascii) :=
  let (sign, s0) :=
    match s with
    | c :: s' => if (code c =? 45)%Z then ([c], s') else ([], s)
    | [] => ([], s)
    end in
  match scan_int s0 with
  | Some (i, s1) =>
      let (f, s2) := scan_frac s1 in
      let (e, s3) := scan_exp s2 in
      Some (sign ++ i ++ f ++ e, s3)
  | None => None
  end.

Definition keyword (w : string) (v : json) (s : list ascii) : res (json * list ascii) :=
  match starts (list_ascii_of_string w) s with
  | Some r => Ok (v, r)
  | None => Raise ValueError
  end.

(** A value that is not a list or a dictionary. *)
Definition scalar (s : list ascii) : res (json * list ascii) :=
  match s with
  | [] => Raise ValueError
  | c :: r =>
      if (code c =? 34)%Z then
        '(str, r') <- scanstring r [] ;; Ok (JStr str, r')
      else if (code c =? 110)%Z then keyword "null" JNull s
      else if (code c =? 116)%Z then keyword "true" (JBool true) s
      else if (code c =? 102)%Z then keyword "false" (JBool false) s
      else
        match scan_number s with
        | Some (lit, r') =>
            if (4300 <? Z.of_nat (List.length lit))%Z then Unmodelled
            else Ok (JNum (string_of_list_ascii lit), r')
        | None =>
            if (code c =? 78)%Z then keyword "NaN" (JNum "NaN") s
            else if (code c =? 73)%Z then keyword "Infinity" (JNum "Infinity") s
            else if (code c =? 45)%Z then keyword "-Infinity" (JNum "-Infinity") s
            else Raise ValueError
        end
  end.

(** A value starting at the head of [s]; it returns the value and the
    text after it.  Lists and dictionaries loop over their elements, one
    turn of the loop per element. *)
Fixpoint value (depth : nat) (s : list ascii) {struct depth} : res (json * list ascii) :=
  match depth with
  | O => Unmodelled
  | S d =>
      match s with
      | [] => Raise ValueError
      | c :: r =>
          if (code c =? 91)%Z then
            match skip_ws r with
            | [] => Raise ValueError
            | c1 :: r1 =>
                if (code c1 =? 93)%Z then Ok (JArr [], r1)
                else
                  (fix elements (fuel : nat) (s : list ascii) (acc : list json)
                       {struct fuel} : res (json * list ascii) :=
                     match fuel with
                     | O => Unmodelled
                     | S fuel' =>
                         '(v, r2) <- value d s ;;
                         match skip_ws r2 with
                         | [] => Raise ValueError
                         | c3 :: r3 =>
                             if (code c3 =? 93)%Z then Ok (JArr (rev (v :: acc)), r3)
                             else if (code c3 =? 44)%Z
                             then elements fuel' (skip_ws r3) (v :: acc)
                             else Raise ValueError
                         end
                     end) (List.length r) (c1 :: r1) []
            end
          else if (code c =? 123)%Z then
            match skip_ws r with
            | [] => Raise ValueError
            | c1 :: r1 =>
                if (code c1 =? 125)%Z then Ok (JObj [], r1)
                else
                  (fix pairs (fuel : nat) (s : list ascii) (acc : list (string * json))
                       {struct fuel} : res (json * list ascii) :=
                     match fuel with
                     | O => Unmodelled
                     | S fuel' =>
                         match s with
                         | [] => Raise ValueError
                         | q :: r2 =>
                             if negb (code q =? 34)%Z then Raise ValueError
                             else
                               '(key, r3) <- scanstring r2 [] ;;
                               match skip_ws r3 with
                               | [] => Raise ValueError
                               | c4 :: r4 =>
                                   if negb (code c4 =? 58)%Z then Raise ValueError
                                   else
                                     '(v, r5) <- value d (skip_ws r4) ;;
                                     match skip_ws r5 with
                                     | [] => Raise ValueError
                                     | c6 :: r6 =>
                                         if (code c6 =? 125)%Z
                                         then Ok (JObj (dict_set key v acc), r6)
                                         else if (code c6 =? 44)%Z
                                         then pairs fuel' (skip_ws r6) (dict_set key v acc)
                                         else Raise ValueError
                                     end
                               end
                         end
                     end) (List.length r) (c1 :: r1) []
            end
          else scalar s
      end
  end.

Definition loads_unmodelled (c : ascii) : bool := (code c =? 0)%Z || negb (is_ascii c).

End Json.

Definition json_loads (text : string) : res json :=
  let cs := list_ascii_of_string text in
  if existsb Json.loads_unmodelled cs then Unmodelled
  else
    '(v, rest) <- Json.value 100 (Json.skip_ws cs) ;;
    match Json.skip_ws rest with
    | [] => Ok v
    | _ :: _ => Raise ValueError
    end.

(** ** Regular expressions: [re.compile] and [regex.match]

    The fragment of the pattern language modelled here: ordinary
    characters, [.], a backslash before a character that is neither a
    letter nor a digit, the groups [( )], alternation [|] and the greedy
    repetitions [*], [+] and [?] of an element that cannot match the
    empty string.  Left out of the model: character classes, counted
    repetition, the anchors, the [(?...)] extensions, backslash before a
    letter or digit, a repetition mark right after another one, non-ASCII
    characters, and patterns with 100 opening parentheses or more. *)

Module Re.

Inductive regex : Type :=
| Void
| Eps
| Chr (c : ascii)
| Dot
| Cat (r1 r2 : regex)
| Alt (r1 r2 : regex)
| Star (r : regex).

Definition newline : ascii := ascii_of_nat 10.

Fixpoint nullable (r : regex) : bool :=
  match r with
  | Void => false
  | Eps => true
  | Chr _ => false
  | Dot => false
  | Cat r1 r2 => nullable r1 && nullable r2
  | Alt r1 r2 => nullable r1 || nullable r2
  | Star _ => true
  end.

(** What remains to be matched after the character [a]. *)
Fixpoint deriv (a : ascii) (r : regex) : regex :=
  match r with
  | Void => Void
  | Eps => Void
  | Chr c => if Ascii.eqb c a then Eps else Void
  | Dot => if Ascii.eqb a newline then Void else Eps
  | Cat r1 r2 =>
      if nullable r1
      then Alt (Cat (deriv a r1) r2) (deriv a r2)
      else Cat (deriv a r1) r2
  | Alt r1 r2 => Alt (deriv a r1) (deriv a r2)
  | Star r1 => Cat (deriv a r1) (Star r1)
  end.

(** [regex.match(s)] finds a match that starts at the first character of
    [s] and may end anywhere. *)
Fixpoint matches (r : regex) (s : string) : bool :=
  nullable r ||
  match s with
  | EmptyString => false
  | String a s' => matches (deriv a r) s'
  end.

(** [regex.fullmatch(s)] and [regex.search(s)], which [main] does not
    call, for comparison. *)
Fixpoint fullmatches (r : regex) (s : string) : bool :=
  match s with
  | EmptyString => nullable r
  | String a s' => fullmatches (deriv a r) s'
  end.

Fixpoint searches (r : regex) (s : string) : bool :=
  matches r s ||
  match s with
  | EmptyString => false
  | String _ s' => searches r s'
  end.

Definition is_repeat (c : ascii) : bool :=
  (code c =? 42)%Z || (code c =? 43)%Z || (code c =? 63)%Z.

Definition repeated (q : ascii) (r : regex) : regex :=
  if (code q =? 42)%Z then Star r
  else if (code q =? 43)%Z then Cat r (Star r)
  else Alt r Eps.

(** Characters that start a construct outside the fragment: [[], [{],
    [^], [$] and the non-ASCII ones. *)
Definition starts_unmodelled (c : ascii) : bool :=
  (code c =? 91)%Z || (code c =? 123)%Z || (code c =? 94)%Z || (code c =? 36)%Z
  || negb (is_ascii c).

Section Parser.

(** The parser of what stands between the parentheses of a group. *)
Variable group : list ascii -> res (regex * list ascii).

Definition atom (s : list ascii) : res (regex * list ascii) :=
  match s with
  | [] => Raise re_error
  | c :: r =>
      if (code c =? 40)%Z then
        match r with
        | [] => Raise re_error
        | c1 :: _ =>
            if (code c1 =? 63)%Z then Unmodelled
            else
              '(g, r1) <- group r ;;
              match r1 with
              | [] => Raise re_error
              | c2 :: r2 => if (code c2 =? 41)%Z then Ok (g, r2) else Raise re_error
              end
        end
      else if (code c =? 46)%Z then Ok (Dot, r)
      else if (code c =? 92)%Z then
        match r with
        | [] => Raise re_error
        | e :: r' =>
            if is_digit e || is_alpha e || negb (is_ascii e) then Unmodelled
            else Ok (Chr e, r')
        end
      else if is_repeat c then Raise re_error
      else if starts_unmodelled c then Unmodelled
      else Ok (Chr c, r)
  end.

(** An element with the repetition mark that may follow it. *)
Definition item (s : list ascii) : res (regex * list ascii) :=
  '(a, r) <- atom s ;;
  match r with
  | [] => Ok (a, r)
  | q :: r1 =>
      if is_repeat q then
        if nullable a then Unmodelled
        else
          match r1 with
          | [] => Ok (repeated q a, r1)
          | q2 :: _ => if is_repeat q2 then Unmodelled else Ok (repeated q a, r1)
          end
      else Ok (a, r)
  end.

(** A sequence of items, up to the end of the pattern, a [|] or a [)]. *)
Fixpoint sequence (fuel : nat) (s : list ascii) (acc : regex) : res (regex * list ascii) :=
  match fuel with
  | O => Unmodelled
  | S fuel' =>
      match s with
      | [] => Ok (acc, s)
      | c :: _ =>
          if (code c =? 124)%Z || (code c =? 41)%Z then Ok (acc, s)
          else '(i, r) <- item s ;; sequence fuel' r (Cat acc i)
      end
  end.

(** Sequences separated by [|]. *)
Fixpoint branches (fuel : nat) (s : list ascii) : res (regex * list ascii) :=
  match fuel with
  | O => Unmodelled
  | S fuel' =>
      '(r1, rest) <- sequence (S (List.length s)) s Eps ;;
      match rest with
      | [] => Ok (r1, rest)
      | c :: rest' =>
          if (code c =? 124)%Z
          then '(r2, rest2) <- branches fuel' rest' ;; Ok (Alt r1 r2, rest2)
          else Ok (r1, rest)
      end
  end.

End Parser.

Fixpoint pattern (depth : nat) (s : list ascii) : res (regex * list ascii) :=
  match depth with
  | O => Unmodelled
  | S d => branches (pattern d) (S (List.length s)) s
  end.

Definition count_open (s : list ascii) : nat :=
  List.length (filter (fun c => (code c =? 40)%Z) s).

End Re.

(** [re.compile(p)]. *)
Definition re_compile (p : string) : res Re.regex :=
  let cs := list_ascii_of_string p in
  if (100 <=? Re.count_open cs)%nat then Unmodelled
  else
    '(r, rest) <- Re.pattern 100 cs ;;
    match rest with
    | [] => Ok r
    | _ :: _ => Raise re_error
    end.

(** [regex.match(v)]: true when there is a match, [TypeError] when [v]
    is not a string. *)
Definition regex_match (regex : Re.regex) (v : json) : res bool :=
  match v with
  | JStr s => Ok (Re.matches regex s)
  | _ => Raise TypeError
  end.

(** ** [list.sort(key=..., reverse=...)]

    The sort is stable, and stays so under [reverse=True], where CPython
    reverses the list, sorts it and reverses it again.  A stable sort is
    determined by the order on the keys, so an insertion sort stands for
    it. *)

Section StableSort.

Context {A : Type} (le : A -> A -> bool).

Fixpoint insert (x : A) (l : list A) : list A :=
  match l with
  | [] => [x]
  | y :: l' => if le x y then x :: l else y :: insert x l'
  end.

Fixpoint stable_sort (l : list A) : list A :=
  match l with
  | [] => []
  | x :: l' => insert x (stable_sort l')
  end.

End StableSort.

(** ** The module *)

(** [data = {'arn': ..., 'name': ...}]. *)
Record data : Type := { arn : json; name : json }.

Inductive order : Type := ascending | descending.

(** [module.params] once [AnsibleModule] has checked them against the
    argument specification: [region] is required, [sort] is a boolean or
    [None], [sort_order] is one of its two choices, the others are
    strings or [None]. *)
Record params : Type := {
  region : string;
  name_regex : option string;
  sort : option bool;
  sort_order : order;
  sort_start : option string;
  sort_end : option string
}.

(** How a run of the module ends: [module.exit_json(results=...)],
    [module.fail_json(msg=...)], or an exception nothing catches. *)
Inductive outcome : Type :=
| exit_json (results : list data)
| fail_json (msg : string)
| uncaught (e : exception)
| unmodelled.

Definition is_str (v : json) : bool :=
  match v with
  | JStr _ => true
  | _ => false
  end.

(** [key(a) <= key(b)] for the key [lambda e: e['name']] on strings. *)
Definition name_le (a b : data) : bool :=
  match name a, name b with
  | JStr s, JStr t => String.leb s t
  | _, _ => true
  end.

(** [results.sort(key=lambda e: e['name'], reverse=...)].  How keys that
    are not all strings compare depends on the release; with at most one
    record nothing is compared. *)
Definition list_sort (reverse : bool) (results : list data) : res (list data) :=
  if forallb (fun e => is_str (name e)) results then
    Ok (if reverse
        then rev (stable_sort name_le (rev results))
        else stable_sort name_le results)
  else if (List.length results <=? 1)%nat then Ok results
  else Unmodelled.

Definition is_descending (o : order) : bool :=
  match o with
  | descending => true
  | ascending => false
  end.

(** [re.compile(v)] and [int(v)] for a parameter: [None] is not a
    string, both raise [TypeError] on it. *)
Definition re_compile_of (v : option string) : res Re.regex :=
  match v with
  | Some p => re_compile p
  | None => Raise TypeError
  end.

Definition int_of (v : option string) : res Z :=
  match v with
  | Some s => int s
  | None => Raise TypeError
  end.

Section Main.

Variable module_params : params.

(** [subprocess.check_output(argv)]: the output of the command, or the
    exception of a call that failed. *)
Variable check_output : list string -> res string.

(** Lines 33 to 37: the body of the loop, one record per entry. *)
Definition project (lc : json) : res data :=
  arn <- getitem lc "LaunchConfigurationARN" ;;
  name <- getitem lc "LaunchConfigurationName" ;;
  Ok {| arn := arn; name := name |}.

(** Lines 29 to 37: the call, the decoding and the loop that builds
    [results]. *)
Definition fetch : res (list data) :=
  lc_cmd_result <- check_output
    ["aws"; "autoscaling"; "describe-launch-configurations"; "--region";
     region module_params] ;;
  lc_result <- json_loads lc_cmd_result ;;
  lcs <- getitem lc_result "LaunchConfigurations" ;;
  lcs <- iterate lcs ;;
  for_each project lcs.

(** Lines 38 to 40: [if name_regex: ...]. *)
Definition filter_results (results : list data) : res (list data) :=
  let name_regex := name_regex module_params in
  if truthy_str name_regex then
    regex <- re_compile_of name_regex ;;
    comprehension (fun result => regex_match regex (name result)) results
  else Ok results.

(** Lines 41 and 42: [if sort: ...]. *)
Definition sort_results (results : list data) : res (list data) :=
  if truthy_bool (sort module_params)
  then list_sort (is_descending (sort_order module_params)) results
  else Ok results.

(** Lines 44 to 49: the body of the [try]. *)
Definition slice_results (results : list data) : res (list data) :=
  let sort := truthy_bool (sort module_params) in
  let sort_start := sort_start module_params in
  let sort_end := sort_end module_params in
  if sort && truthy_str sort_start && truthy_str sort_end then
    i <- int_of sort_start ;; j <- int_of sort_end ;;
    Ok (slice (Some i) (Some j) results)
  else if sort && truthy_str sort_start then
    i <- int_of sort_start ;; Ok (slice (Some i) None results)
  else if sort && truthy_str sort_end then
    j <- int_of sort_end ;; Ok (slice None (Some j) results)
  else Ok results.

Definition numeric_msg : string :=
  "Please supply numeric values for sort_start and/or sort_end".

Definition main : outcome :=
  match
    results <- fetch ;;
    results <- filter_results results ;;
    sort_results results
  with
  | Ok results =>
      match slice_results results with
      | Ok results => exit_json results
      | Raise TypeError => fail_json numeric_msg
      | Raise e => uncaught e
      | Unmodelled => unmodelled
      end
  | Raise e => uncaught e
  | Unmodelled => unmodelled
  end.

End Main.

(** ** Sample runs *)

(** JSON text written with single quotes for the double ones. *)
Definition quoted (s : string) : string :=
  string_of_list_ascii
    (map (fun c => if (code c =? 39)%Z then ascii_of_nat 34 else c)
       (list_ascii_of_string s)).

Definition lc (n a : string) : data := {| arn := JStr a; name := JStr n |}.

Definition no_options : params :=
  {| region := "eu-west-1"; name_regex := None; sort := None;
     sort_order := ascending; sort_start := None; sort_end := None |}.

(** The command answers [text], whatever the region. *)
Definition answers (text : string) : list string -> res string :=
  fun _ => Ok (quoted text).

Definition two_lcs : string :=
  "{'LaunchConfigurations': [
     {'LaunchConfigurationName': 'lc-a', 'LaunchConfigurationARN': 'arn:a',
      'ImageId': 'ami-1', 'SecurityGroups': ['sg-1'], 'EbsOptimized': false},
     {'LaunchConfigurationName': 'lc-b', 'LaunchConfigurationARN': 'arn:b',
      'ImageId': 'ami-2', 'SecurityGroups': [], 'EbsOptimized': true}]}".

Definition cab : string :=
  "{'LaunchConfigurations': [
     {'LaunchConfigurationName': 'c', 'LaunchConfigurationARN': 'arn:c'},
     {'LaunchConfigurationName': 'a', 'LaunchConfigurationARN': 'arn:a'},
     {'LaunchConfigurationName': 'b', 'LaunchConfigurationARN': 'arn:b'}]}".

(** ** Notions the properties are stated with *)

(** Ordinary lexicographic comparison, character by character: a string
    comes before every string it is a prefix of, and otherwise the first
    character that differs decides. *)
Inductive lex_le : string -> string -> Prop :=
| lex_le_empty (t : string) : lex_le "" t
| lex_le_less (c d : ascii) (s t : string) :
    (code c < code d)%Z -> lex_le (String c s) (String d t)
| lex_le_next (c : ascii) (s t : string) :
    lex_le s t -> lex_le (String c s) (String c t).

(** The elements of [l] whose position, counted from [i] for the first
    one, is at least [lo] and less than [hi]. *)
Fixpoint positions_between {A : Type} (lo hi i : Z) (l : list A) : list A :=
  match l with
  | [] => []
  | x :: l' =>
      if (lo <=? i)%Z && (i <? hi)%Z
      then x :: positions_between lo hi (i + 1) l'
      else positions_between lo hi (i + 1) l'
  end.

(** The half-open range [[start, stop)] over a sequence, as the
    specification words it: the elements at the positions from [start],
    included, to [stop], excluded; a missing [start] is 0, a missing
    [stop] is the length, and a bound beyond the sequence selects
    nothing more than the sequence has. *)
Definition half_open_range {A : Type} (start stop : option Z) (l : list A) : list A :=
  positions_between
    (match start with Some i => i | None => 0%Z end)
    (match stop with Some j => j | None => Z.of_nat (List.length l) end)
    0 l.

(** A negative bound of a slice stands for its distance from the end. *)
Definition from_end (len i : Z) : Z := if (i <? 0)%Z then (len + i)%Z else i.

(** The strings a regular expression matches in full. *)
Inductive lang : Re.regex -> string -> Prop :=
| lang_Eps : lang Re.Eps ""
| lang_Chr (c : ascii) : lang (Re.Chr c) (String c "")
| lang_Dot (c : ascii) : c <> Re.newline -> lang Re.Dot (String c "")
| lang_Cat (r1 r2 : Re.regex) (s1 s2 : string) :
    lang r1 s1 -> lang r2 s2 -> lang (Re.Cat r1 r2) (s1 ++ s2)
| lang_Alt_l (r1 r2 : Re.regex) (s : string) : lang r1 s -> lang (Re.Alt r1 r2) s
| lang_Alt_r (r1 r2 : Re.regex) (s : string) : lang r2 s -> lang (Re.Alt r1 r2) s
| lang_Star_nil (r : Re.regex) : lang (Re.Star r) ""
| lang_Star_more (r : Re.regex) (s1 s2 : string) :
    lang r s1 -> lang (Re.Star r) s2 -> lang (Re.Star r) (s1 ++ s2).

(** A match anchored at the start of [s]: some prefix of [s] is matched
    in full; what follows the prefix is free. *)
Definition matches_at_start (r : Re.regex) (s : string) : Prop :=
  exists prefix rest : string, s = (prefix ++ rest)%string /\ lang r prefix.

(** A match of the whole of [s], and a match anywhere inside [s]. *)
Definition matches_whole (r : Re.regex) (s : string) : Prop := lang r s.

Definition matches_somewhere (r : Re.regex) (s : string) : Prop :=
  exists skipped found rest : string,
    s = (skipped ++ found ++ rest)%string /\ lang r found.

(** [a] comes no later than [b] when both names are strings in
    lexicographic order. *)
Definition name_leq (a b : data) : Prop :=
  exists s t, name a = JStr s /\ name b = JStr t /\ lex_le s t.

(** The order [sort_order] asks for between a record and a later one. *)
Definition in_order (o : order) (a b : data) : Prop :=
  match o with
  | ascending => name_leq a b
  | descending => name_leq b a
  end.

(** The command line [main] runs. *)
Definition argv (p : params) : list string :=
  ["aws"; "autoscaling"; "describe-launch-configurations"; "--region"; region p].

Definition is_Ok {A : Type} (c : res A) : bool :=
  match c with
  | Ok _ => true
  | _ => false
  end.

(** The parameters [main] does not stumble on: a [name_regex] that is
    used compiles, and with [sort] true the bounds that are used are
    numerals. *)
Definition accepted (p : params) : bool :=
  (if truthy_str (name_regex p) then is_Ok (re_compile_of (name_regex p)) else true)
  && (if truthy_bool (sort p)
      then (if truthy_str (sort_start p) then is_Ok (int_of (sort_start p)) else true)
           && (if truthy_str (sort_end p) then is_Ok (int_of (sort_end p)) else true)
      else true).

(** The bound a parameter gives to the slice: the integer it reads as,
    and no bound when it is absent or empty. *)
Definition bound (v : option string) (b : option Z) : Prop :=
  if truthy_str v then exists i, int_of v = Ok i /\ b = Some i else b = None.

(** The record [main] builds from an entry of the response. *)
Definition projects (lc : json) (d : data) : Prop :=
  getitem lc "LaunchConfigurationARN" = Ok (arn d) /\
  getitem lc "LaunchConfigurationName" = Ok (name d).

(** An entry that is a dictionary without one of the two keys. *)
Definition lacks_key (lc : json) : Prop :=
  exists m, lc = JObj m /\
    (dict_get "LaunchConfigurationARN" m = None \/
     dict_get "LaunchConfigurationName" m = None).

Definition has_str_name (d : data) : Prop := is_str (name d) = true.

Definition with_sort (so : option bool) (o : order) (a b : option string) : params :=
  {| region := "eu-west-1"; name_regex := None; sort := so;
     sort_order := o; sort_start := a; sort_end := b |}.

Definition with_name_regex (pat : option string) : params :=
  {| region := "eu-west-1"; name_regex := pat; sort := None;
     sort_order := ascending; sort_start := None; sort_end := None |}.

Definition abc : list data := [lc "a" "arn:a"; lc "b" "arn:b"; lc "c" "arn:c"].

Definition named : list data :=
  [lc "lc-a-1" "arn:1"; lc "x-lc-a" "arn:2"; lc "LC-A" "arn:3"; lc "lc-a" "arn:4"].

Definition lc_a : Re.regex :=
  Re.Cat (Re.Cat (Re.Cat (Re.Cat Re.Eps (Re.Chr "l")) (Re.Chr "c")) (Re.Chr "-"))
    (Re.Chr "a").

(** The characters that stand for themselves in a pattern. *)
Definition ordinary (c : ascii) : bool :=
  negb ((code c =? 40)%Z || (code c =? 41)%Z || (code c =? 124)%Z || (code c =? 46)%Z
        || (code c =? 92)%Z || Re.is_repeat c || Re.starts_unmodelled c).

(** The expression for a run of ordinary characters, appended to [acc]. *)
Fixpoint literal (cs : list ascii) (acc : Re.regex) : Re.regex :=
  match cs with
  | [] => acc
  | c :: cs' => literal cs' (Re.Cat acc (Re.Chr c))
  end.

(** No bound takes part in the run: [sort] is not true, or both bounds
    are absent or empty. *)
Definition bounds_unused (p : params) : bool :=
  negb (truthy_bool (sort p))
  || (negb (truthy_str (sort_start p)) && negb (truthy_str (sort_end p))).

(** The record is named [n]. *)
Definition has_name (n : string) (d : data) : bool :=
  match name d with
  | JStr s => (s =? n)%string
  | _ => false
  end.

(** The same parameters, without [name_regex]. *)
Definition without_name_regex (p : params) : params :=
  {| region := region p; name_regex := None; sort := sort p;
     sort_order := sort_order p; sort_start := sort_start p;
     sort_end := sort_end p |}.

(** The same parameters, with another [sort_order]. *)
Definition with_order (o : order) (p : params) : params :=
  {| region := region p; name_regex := name_regex p; sort := sort p;
     sort_order := o; sort_start := sort_start p; sort_end := sort_end p |}.

Definition b1_a_b3 : list data := [lc "b" "arn:1"; lc "a" "arn:2"; lc "b" "arn:3"].

(** The same parameters, with other bounds. *)
Definition with_bounds (a b : option string) (p : params) : params :=
  {| region := region p; name_regex := name_regex p; sort := sort p;
     sort_order := sort_order p; sort_start := a; sort_end := b |}.

(** * Properties *)

(** ** The exception monad and the two loops *)

Lemma bind_Ok {A B : Type} (c : res A) (k : A -> res B) (b : B) :
  bind c k = Ok b -> exists a, c = Ok a /\ k a = Ok b.
Proof. destruct c as [a | e | ]; simpl; intros H; try discriminate; eauto. Qed.

Lemma bind_Raise {A B : Type} (c : res A) (k : A -> res B) (e : exception) :
  bind c k = Raise e -> c = Raise e \/ exists a, c = Ok a /\ k a = Raise e.
Proof.
  destruct c as [a | e' | ]; simpl; intros H; try discriminate.
  - right. exists a. split; [reflexivity | exact H].
  - left. injection H as ->. reflexivity.
Qed.

Ltac inv_bind H :=
  let a := fresh "a" in
  let Ha := fresh "H" a in
  apply bind_Ok in H; destruct H as (a & Ha & H).

Lemma for_each_Ok {A B : Type} (body : A -> res B) (l : list A) (out : list B) :
  for_each body l = Ok out -> Forall2 (fun x y => body x = Ok y) l out.
Proof.
  revert out; induction l as [ | x l IH]; simpl; intros out H.
  - injection H as <-. constructor.
  - inv_bind H. inv_bind H. injection H as <-. constructor; auto.
Qed.

Lemma for_each_Forall2 {A B : Type} (body : A -> res B) (l : list A) (out : list B) :
  Forall2 (fun x y => body x = Ok y) l out -> for_each body l = Ok out.
Proof.
  induction 1 as [ | x y l out Hx _ IH]; simpl; [reflexivity | ].
  rewrite Hx; simpl. rewrite IH; reflexivity.
Qed.

Lemma for_each_Raise {A B : Type} (body : A -> res B) (l : list A) (x : A) (e : exception) :
  (forall y, In y l -> body y <> Unmodelled) ->
  In x l -> body x = Raise e ->
  exists y e', In y l /\ body y = Raise e' /\ for_each body l = Raise e'.
Proof.
  induction l as [ | y l IH]; simpl; intros Hu Hin Hx; [contradiction | ].
  destruct (body y) as [b | e' | ] eqn:Hy; simpl.
  - destruct Hin as [-> | Hin]; [congruence | ].
    destruct (IH (fun z Hz => Hu z (or_intror Hz)) Hin Hx) as (z & e' & Hz & Hbz & ->).
    simpl. eauto 6.
  - exists y, e'. auto.
  - exfalso; apply (Hu y); auto.
Qed.

(** A comprehension whose test never raises is [filter]. *)
Lemma comprehension_filter {A : Type} (test : A -> res bool) (keep : A -> bool) (l : list A) :
  Forall (fun x => test x = Ok (keep x)) l ->
  comprehension test l = Ok (filter keep l).
Proof.
  induction 1 as [ | x l Hx _ IH]; simpl; [reflexivity | ].
  rewrite Hx; simpl. rewrite IH; simpl. reflexivity.
Qed.

Lemma comprehension_Ok {A : Type} (test : A -> res bool) (l out : list A) :
  comprehension test l = Ok out ->
  exists keep, Forall (fun x => test x = Ok (keep x)) l /\ out = filter keep l.
Proof.
  revert out; induction l as [ | x l IH]; simpl; intros out H.
  - injection H as <-. exists (fun _ => true). split; constructor.
  - inv_bind H. inv_bind H. injection H as <-.
    destruct (IH _ Ha0) as (keep & Hall & ->).
    exists (fun y => match test y with Ok b => b | _ => false end). split.
    + constructor; [rewrite Ha; reflexivity | ].
      eapply Forall_impl; [ | exact Hall]. simpl. intros y Hy. rewrite Hy. reflexivity.
    + rewrite Ha. simpl.
      assert (E : filter keep l =
                  filter (fun y => match test y with Ok b => b | _ => false end) l).
      { apply filter_ext_in. intros y Hy. rewrite Forall_forall in Hall.
        rewrite (Hall y Hy). reflexivity. }
      rewrite E. reflexivity.
Qed.

Lemma Forall2_in_r {A B : Type} (R : A -> B -> Prop) (l : list A) (l' : list B) (y : B) :
  Forall2 R l l' -> In y l' -> exists x, In x l /\ R x y.
Proof.
  induction 1 as [ | x y' l l' Hxy _ IH]; simpl; [contradiction | ].
  intros [<- | Hin]; [eauto | ].
  destruct (IH Hin) as (x' & Hx' & Hr). eauto.
Qed.

Lemma filter_length_le {A : Type} (f : A -> bool) (l : list A) :
  (List.length (filter f l) <= List.length l)%nat.
Proof. induction l as [ | x l IH]; simpl; [lia | destruct (f x); simpl; lia]. Qed.

(** ** The order on strings *)

Lemma ascii_compare_code (a b : ascii) :
  Ascii.compare a b = (code a ?= code b)%Z.
Proof. unfold Ascii.compare, code. rewrite N2Z.inj_compare. reflexivity. Qed.

Lemma code_inj (a b : ascii) : code a = code b -> a = b.
Proof.
  unfold code. intros H. apply N2Z.inj in H.
  rewrite <- (ascii_N_embedding a), <- (ascii_N_embedding b). congruence.
Qed.

Lemma leb_lex_le (s t : string) : String.leb s t = true <-> lex_le s t.
Proof.
  unfold String.leb. revert t; induction s as [ | c s IH]; intros [ | d t]; simpl.
  - split; [constructor | reflexivity].
  - split; [constructor | reflexivity].
  - split; [discriminate | intros H; inversion H].
  - rewrite ascii_compare_code. destruct (code c ?= code d)%Z eqn:E.
    + apply Z.compare_eq in E. apply code_inj in E. subst d.
      rewrite IH. split; [constructor; assumption | ].
      intros H; inversion H; subst; [lia | assumption].
    + rewrite Z.compare_lt_iff in E. split; [constructor; assumption | reflexivity].
    + rewrite Z.compare_gt_iff in E. split; [discriminate | ].
      intros H; inversion H; subst; lia.
Qed.

Lemma lex_le_refl (s : string) : lex_le s s.
Proof. induction s; constructor; assumption. Qed.

Lemma lex_le_trans (s t u : string) : lex_le s t -> lex_le t u -> lex_le s u.
Proof.
  intros H; revert u; induction H as [t | c d s t Hcd | c s t _ IH]; intros u Hu.
  - constructor.
  - inversion Hu; subst; apply lex_le_less; lia.
  - inversion Hu; subst; [apply lex_le_less; assumption | apply lex_le_next; auto].
Qed.

Lemma lex_le_total (s t : string) : lex_le s t \/ lex_le t s.
Proof.
  revert t; induction s as [ | c s IH]; intros [ | d t]; try (left; constructor; fail).
  - right; constructor.
  - destruct (Z.lt_trichotomy (code c) (code d)) as [H | [H | H]].
    + left; constructor; assumption.
    + apply code_inj in H; subst d. destruct (IH t); [left | right]; constructor; assumption.
    + right; constructor; assumption.
Qed.

Lemma lex_le_antisym (s t : string) : lex_le s t -> lex_le t s -> s = t.
Proof.
  induction 1 as [t | c d s t Hcd | c s t _ IH]; intros Hts; inversion Hts; subst;
    try reflexivity; try lia.
  f_equal; auto.
Qed.

(** ** The stable sort *)

Section StableSortFacts.

Context {A : Type} (le : A -> A -> bool) (P : A -> Prop).

Hypothesis le_total : forall x y, P x -> P y -> le x y = false -> le y x = true.
Hypothesis le_trans :
  forall x y z, P x -> P y -> P z -> le x y = true -> le y z = true -> le x z = true.

Let R (x y : A) : Prop := le x y = true.

Lemma insert_Permutation (x : A) (l : list A) : Permutation (x :: l) (insert le x l).
Proof.
  induction l as [ | y l IH]; simpl; [reflexivity | ].
  destruct (le x y); [reflexivity | ].
  rewrite perm_swap. constructor. exact IH.
Qed.

Lemma stable_sort_Permutation (l : list A) : Permutation l (stable_sort le l).
Proof.
  induction l as [ | x l IH]; simpl; [reflexivity | ].
  rewrite <- insert_Permutation. constructor. exact IH.
Qed.

Lemma insert_StronglySorted (x : A) (l : list A) :
  P x -> Forall P l -> StronglySorted R l -> StronglySorted R (insert le x l).
Proof.
  intros Px Pl Hl; induction Hl as [ | y l Hl IH Hy]; simpl.
  - repeat constructor.
  - inversion Pl as [ | ? ? Py Pl']; subst.
    destruct (le x y) eqn:Hxy.
    + constructor; [constructor; assumption | ].
      constructor; [exact Hxy | ].
      rewrite Forall_forall in *. intros z Hz.
      apply (le_trans x y z); auto. apply Hy; assumption.
    + constructor; [auto | ].
      rewrite Forall_forall. intros z Hz.
      apply (Permutation_in _ (Permutation_sym (insert_Permutation x l))) in Hz.
      destruct Hz as [<- | Hz].
      * apply le_total; assumption.
      * rewrite Forall_forall in Hy. apply Hy; assumption.
Qed.

Lemma stable_sort_StronglySorted (l : list A) :
  Forall P l -> StronglySorted R (stable_sort le l).
Proof.
  induction 1 as [ | x l Px Pl IH]; simpl; [constructor | ].
  apply insert_StronglySorted; auto.
  rewrite Forall_forall in *. intros y Hy. apply Pl.
  apply (Permutation_in _ (Permutation_sym (stable_sort_Permutation l))); assumption.
Qed.

End StableSortFacts.

Lemma StronglySorted_app_inv {A : Type} (R : A -> A -> Prop) (l1 l2 : list A) :
  StronglySorted R (l1 ++ l2) -> StronglySorted R l1 /\ StronglySorted R l2.
Proof.
  induction l1 as [ | x l1 IH]; simpl; intros H; [split; [constructor | assumption] | ].
  apply StronglySorted_inv in H. destruct H as [H Hx].
  destruct (IH H) as [H1 H2]. split; [ | assumption].
  constructor; [assumption | ]. apply Forall_app in Hx. tauto.
Qed.

Lemma StronglySorted_app {A : Type} (R : A -> A -> Prop) (l1 l2 : list A) :
  StronglySorted R l1 -> StronglySorted R l2 ->
  (forall x y, In x l1 -> In y l2 -> R x y) ->
  StronglySorted R (l1 ++ l2).
Proof.
  intros H1 H2 H; induction H1 as [ | x l1 H1 IH Hx]; simpl; [assumption | ].
  constructor.
  - apply IH. intros; apply H; simpl; auto.
  - apply Forall_app. split; [assumption | ].
    rewrite Forall_forall. intros y Hy. apply H; simpl; auto.
Qed.

Lemma StronglySorted_rev {A : Type} (R : A -> A -> Prop) (l : list A) :
  StronglySorted R l -> StronglySorted (fun x y => R y x) (rev l).
Proof.
  induction 1 as [ | x l _ IH Hx]; simpl; [constructor | ].
  apply StronglySorted_app; [assumption | repeat constructor | ].
  intros y z Hy [<- | []]. rewrite Forall_forall in Hx. apply Hx.
  apply in_rev; assumption.
Qed.

Lemma StronglySorted_impl {A : Type} (R R' : A -> A -> Prop) (P : A -> Prop) (l : list A) :
  (forall x y, P x -> P y -> R x y -> R' x y) ->
  Forall P l -> StronglySorted R l -> StronglySorted R' l.
Proof.
  intros HR Pl H; induction H as [ | x l _ IH Hx]; [constructor | ].
  inversion Pl; subst. constructor; [auto | ].
  rewrite Forall_forall in *. auto.
Qed.

(** ** Slices *)

Lemma slice_index_bounds (len i : Z) :
  (0 <= len -> 0 <= slice_index len i <= len)%Z.
Proof. unfold slice_index. destruct (i <? 0)%Z eqn:E; lia. Qed.

(** A slice is a run of consecutive elements of the list. *)
Lemma slice_infix {A : Type} (start stop : option Z) (l : list A) :
  exists before after, l = before ++ slice start stop l ++ after.
Proof.
  unfold slice.
  set (n := Z.to_nat _). set (lo := Z.to_nat _).
  exists (firstn lo l), (skipn n (skipn lo l)).
  rewrite (firstn_skipn n (skipn lo l)). rewrite firstn_skipn. reflexivity.
Qed.

Lemma slice_length_le {A : Type} (start stop : option Z) (l : list A) :
  (List.length (slice start stop l) <= List.length l)%nat.
Proof.
  destruct (slice_infix start stop l) as (before & after & E).
  rewrite E at 2. rewrite !length_app. lia.
Qed.

Lemma slice_nil {A : Type} (start stop : option Z) : slice start stop (@nil A) = [].
Proof. unfold slice. rewrite skipn_nil, firstn_nil. reflexivity. Qed.

Lemma firstn_min_eq {A : Type} (l : list A) (n m : nat) :
  Nat.min n (List.length l) = Nat.min m (List.length l) -> firstn n l = firstn m l.
Proof.
  revert n m; induction l as [ | x l IH]; intros [ | n] [ | m]; simpl; intros H;
    try reflexivity; try discriminate.
  f_equal. apply IH. lia.
Qed.

Lemma positions_between_firstn_skipn {A : Type} (l : list A) (lo hi i : Z) :
  positions_between lo hi i l =
  firstn (Z.to_nat (hi - Z.max lo i)) (skipn (Z.to_nat (lo - i)) l).
Proof.
  revert i; induction l as [ | x l IH]; intros i; simpl.
  - rewrite skipn_nil, firstn_nil. reflexivity.
  - destruct (lo <=? i)%Z eqn:Hlo; simpl.
    + destruct (i <? hi)%Z eqn:Hhi.
      * apply Z.leb_le in Hlo. apply Z.ltb_lt in Hhi.
        replace (Z.to_nat (lo - i)) with O by lia. simpl.
        replace (Z.to_nat (hi - Z.max lo i)) with (S (Z.to_nat (hi - (i + 1)))) by lia.
        simpl. f_equal. rewrite IH.
        replace (Z.to_nat (lo - (i + 1))) with O by lia. simpl.
        f_equal. lia.
      * apply Z.leb_le in Hlo. apply Z.ltb_ge in Hhi.
        replace (Z.to_nat (hi - Z.max lo i)) with O by lia.
        rewrite IH. replace (Z.to_nat (hi - Z.max lo (i + 1))) with O by lia.
        reflexivity.
    + apply Z.leb_gt in Hlo.
      replace (Z.to_nat (lo - i)) with (S (Z.to_nat (lo - (i + 1)))) by lia.
      simpl. rewrite IH. f_equal. lia.
Qed.

Lemma slice_half_open_range {A : Type} (start stop : option Z) (l : list A) :
  slice start stop l =
  half_open_range
    (option_map (from_end (Z.of_nat (List.length l))) start)
    (option_map (from_end (Z.of_nat (List.length l))) stop) l.
Proof.
  unfold slice, half_open_range. rewrite positions_between_firstn_skipn.
  set (len := Z.of_nat (List.length l)).
  set (lo := match start with Some i => slice_index len i | None => 0%Z end).
  set (hi := match stop with Some j => slice_index len j | None => len end).
  set (lo' := match option_map (from_end len) start with Some i => i | None => 0%Z end).
  set (hi' := match option_map (from_end len) stop with Some j => j | None => len end).
  assert (Hlen : (0 <= len)%Z) by (unfold len; lia).
  assert (Hlo : lo = Z.max 0 (Z.min lo' len)).
  { unfold lo, lo'. destruct start as [i | ]; simpl; [ | lia].
    unfold slice_index, from_end. destruct (i <? 0)%Z eqn:E; lia. }
  assert (Hhi : hi = Z.max 0 (Z.min hi' len)).
  { unfold hi, hi'. destruct stop as [j | ]; simpl; [ | lia].
    unfold slice_index, from_end. destruct (j <? 0)%Z eqn:E; lia. }
  destruct (Z_le_gt_dec lo' len) as [Hle | Hgt].
  - replace (Z.to_nat (lo' - 0)) with (Z.to_nat lo) by lia.
    apply firstn_min_eq. rewrite length_skipn. fold len. lia.
  - rewrite (skipn_all2 (n := Z.to_nat lo)) by (fold len; lia).
    rewrite (skipn_all2 (n := Z.to_nat (lo' - 0))) by (fold len; lia).
    rewrite !firstn_nil. reflexivity.
Qed.

(** ** Regular expressions: the matcher finds the anchored matches *)

Lemma append_empty_r (s : string) : (s ++ "")%string = s.
Proof. induction s as [ | c s IH]; simpl; [reflexivity | rewrite IH; reflexivity]. Qed.

Lemma append_assoc (s t u : string) : ((s ++ t) ++ u = s ++ (t ++ u))%string.
Proof. induction s as [ | c s IH]; simpl; [reflexivity | rewrite IH; reflexivity]. Qed.

Lemma append_eq_empty (s t : string) : (s ++ t)%string = "" -> s = "" /\ t = "".
Proof. destruct s; simpl; [auto | discriminate]. Qed.

Lemma append_eq_String (s t u : string) (a : ascii) :
  (s ++ t)%string = String a u ->
  (s = "" /\ t = String a u) \/ (exists s', s = String a s' /\ u = (s' ++ t)%string).
Proof.
  destruct s as [ | c s]; simpl; intros H; [left; auto | right].
  injection H as -> <-. eauto.
Qed.

Lemma nullable_lang (r : Re.regex) : Re.nullable r = true <-> lang r "".
Proof.
  induction r as [ | | c | | r1 IH1 r2 IH2 | r1 IH1 r2 IH2 | r IH]; simpl.
  - split; [discriminate | intros H; inversion H].
  - split; [constructor | reflexivity].
  - split; [discriminate | intros H; inversion H].
  - split; [discriminate | intros H; inversion H].
  - rewrite andb_true_iff, IH1, IH2. split.
    + intros [H1 H2]. apply (lang_Cat r1 r2 "" ""); assumption.
    + intros H. inversion H as [ | | | ? ? s1 s2 H1 H2 | | | | ]; subst.
      match goal with
      | E : (s1 ++ s2)%string = "" |- _ => apply append_eq_empty in E; destruct E; subst
      end. auto.
  - rewrite orb_true_iff, IH1, IH2. split.
    + intros [H | H]; [apply lang_Alt_l | apply lang_Alt_r]; assumption.
    + intros H; inversion H; subst; auto.
  - split; [constructor | reflexivity].
Qed.

(** A non-empty string of a repetition starts with a non-empty string of
    the repeated expression. *)
Lemma lang_Star_String (r : Re.regex) (a : ascii) (s : string) :
  lang (Re.Star r) (String a s) ->
  exists s1 s2, s = (s1 ++ s2)%string /\ lang r (String a s1) /\ lang (Re.Star r) s2.
Proof.
  remember (Re.Star r) as r' eqn:Er. remember (String a s) as w eqn:Ew.
  intros H; revert s Ew.
  induction H as [ | | | | | | | r0 s1 s2 H1 _ H2 IH2]; intros u Ew; try discriminate.
  injection Er as ->.
  apply append_eq_String in Ew.
  destruct Ew as [[-> ->] | (s1' & -> & ->)].
  - apply IH2; reflexivity.
  - eauto.
Qed.

Lemma deriv_lang (r : Re.regex) (a : ascii) (s : string) :
  lang (Re.deriv a r) s <-> lang r (String a s).
Proof.
  revert s; induction r as [ | | c | | r1 IH1 r2 IH2 | r1 IH1 r2 IH2 | r IH];
    intros s; simpl.
  - split; intros H; inversion H.
  - split; intros H; inversion H.
  - destruct (Ascii.eqb_spec c a) as [-> | Hne].
    + split; intros H; inversion H; subst; constructor.
    + split; intros H; inversion H; subst; congruence.
  - destruct (Ascii.eqb_spec a Re.newline) as [-> | Hne].
    + split; intros H; inversion H; subst; congruence.
    + split; intros H; inversion H; subst; constructor; assumption.
  - assert (L : lang (Re.Cat (Re.deriv a r1) r2) s -> lang (Re.Cat r1 r2) (String a s)).
    { intros H. inversion H as [ | | | ? ? s1 s2 H1 H2 | | | | ]; subst.
      apply IH1 in H1. apply (lang_Cat r1 r2 (String a s1) s2); assumption. }
    assert (R : lang (Re.Cat r1 r2) (String a s) ->
                lang (Re.Cat (Re.deriv a r1) r2) s \/
                (Re.nullable r1 = true /\ lang (Re.deriv a r2) s)).
    { intros H. inversion H as [ | | | ? ? s1 s2 H1 H2 | | | | ]; subst.
      match goal with
      | E : (s1 ++ s2)%string = String a s |- _ =>
          apply append_eq_String in E; destruct E as [[-> ->] | (s1' & -> & ->)]
      end.
      - right. split; [apply nullable_lang; assumption | apply IH2; assumption].
      - left. constructor; [apply IH1; assumption | assumption]. }
    destruct (Re.nullable r1) eqn:N.
    + split.
      * intros H. inversion H; subst; [auto | ].
        apply (lang_Cat r1 r2 "" (String a s)); [apply nullable_lang; assumption | ].
        apply IH2; assumption.
      * intros H. destruct (R H) as [H' | [_ H']];
          [apply lang_Alt_l | apply lang_Alt_r]; assumption.
    + split; [exact L | ].
      intros H. destruct (R H) as [H' | [H' _]]; [assumption | discriminate].
  - split; intros H; inversion H; subst;
      [apply lang_Alt_l, IH1 | apply lang_Alt_r, IH2
      | apply lang_Alt_l, IH1 | apply lang_Alt_r, IH2]; assumption.
  - split.
    + intros H. inversion H as [ | | | ? ? s1 s2 H1 H2 | | | | ]; subst.
      apply IH in H1. apply (lang_Star_more r (String a s1) s2); assumption.
    + intros H. apply lang_Star_String in H. destruct H as (s1 & s2 & -> & H1 & H2).
      constructor; [apply IH; assumption | assumption].
Qed.

(** [regex.match] answers true exactly when a prefix of the string is
    matched in full. *)
Lemma matches_spec (r : Re.regex) (s : string) :
  Re.matches r s = true <-> matches_at_start r s.
Proof.
  unfold matches_at_start. revert r; induction s as [ | a s IH]; intros r; simpl.
  - rewrite orb_false_r, nullable_lang. split.
    + intros H. exists "", "". auto.
    + intros (p & q & E & H). symmetry in E. apply append_eq_empty in E.
      destruct E; subst; assumption.
  - rewrite orb_true_iff, nullable_lang, IH. split.
    + intros [H | (p & q & -> & H)].
      * exists "", (String a s). auto.
      * exists (String a p), q. split; [reflexivity | apply deriv_lang; assumption].
    + intros (p & q & E & H). symmetry in E. apply append_eq_String in E.
      destruct E as [[-> ->] | (p' & -> & ->)]; [left; assumption | right].
      exists p', q. split; [reflexivity | apply deriv_lang; assumption].
Qed.

Lemma fullmatches_spec (r : Re.regex) (s : string) :
  Re.fullmatches r s = true <-> matches_whole r s.
Proof.
  unfold matches_whole. revert r; induction s as [ | a s IH]; intros r; simpl.
  - apply nullable_lang.
  - rewrite IH. apply deriv_lang.
Qed.

Lemma searches_spec (r : Re.regex) (s : string) :
  Re.searches r s = true <-> matches_somewhere r s.
Proof.
  unfold matches_somewhere. induction s as [ | a s IH]; cbn [Re.searches].
  - rewrite orb_false_r, matches_spec. unfold matches_at_start. split.
    + intros (p & q & E & H). exists "", p, q. auto.
    + intros (u & p & q & E & H). symmetry in E.
      apply append_eq_empty in E. destruct E as [-> E]. eauto.
  - rewrite orb_true_iff, IH, matches_spec. unfold matches_at_start. split.
    + intros [(p & q & E & H) | (u & p & q & -> & H)].
      * exists "", p, q. auto.
      * exists (String a u), p, q. auto.
    + intros (u & p & q & E & H). symmetry in E. apply append_eq_String in E.
      destruct E as [[-> E] | (u' & -> & ->)].
      * left. exists p, q. auto.
      * right. exists u', p, q. auto.
Qed.

(** ** Patterns of ordinary characters *)

Lemma ordinary_tests (c : ascii) :
  ordinary c = true ->
  (code c =? 40)%Z = false /\ (code c =? 41)%Z = false /\ (code c =? 124)%Z = false /\
  (code c =? 46)%Z = false /\ (code c =? 92)%Z = false /\
  Re.is_repeat c = false /\ Re.starts_unmodelled c = false.
Proof.
  unfold ordinary. rewrite negb_true_iff. intros H.
  repeat (apply orb_false_iff in H; destruct H as [H ?]). auto 10.
Qed.

Lemma item_ordinary (group : list ascii -> res (Re.regex * list ascii))
      (c : ascii) (cs : list ascii) :
  Forall (fun x => ordinary x = true) (c :: cs) ->
  Re.item group (c :: cs) = Ok (Re.Chr c, cs).
Proof.
  intros H. inversion H as [ | ? ? Hc Hcs]; subst.
  destruct (ordinary_tests c Hc) as (H1 & _ & _ & H4 & H5 & H6 & H7).
  unfold Re.item, Re.atom. rewrite H1, H4, H5, H6, H7. simpl.
  destruct cs as [ | q cs']; [reflexivity | ].
  inversion Hcs as [ | ? ? Hq _]; subst.
  destruct (ordinary_tests q Hq) as (_ & _ & _ & _ & _ & Q & _).
  rewrite Q. reflexivity.
Qed.

Lemma sequence_ordinary (group : list ascii -> res (Re.regex * list ascii))
      (cs : list ascii) (fuel : nat) (acc : Re.regex) :
  Forall (fun x => ordinary x = true) cs -> (List.length cs < fuel)%nat ->
  Re.sequence group fuel cs acc = Ok (literal cs acc, []).
Proof.
  revert fuel acc; induction cs as [ | c cs IH]; intros fuel acc Hcs Hfuel;
    (destruct fuel as [ | fuel]; [simpl in Hfuel; lia | ]).
  - reflexivity.
  - cbn [Re.sequence].
    inversion Hcs as [ | ? ? Hc Hcs']; subst.
    destruct (ordinary_tests c Hc) as (_ & H2 & H3 & _).
    rewrite H2, H3. cbn [orb].
    rewrite (item_ordinary group c cs Hcs). cbn [bind literal].
    apply IH; [assumption | simpl in Hfuel; lia].
Qed.

Lemma branches_ordinary (group : list ascii -> res (Re.regex * list ascii))
      (cs : list ascii) (fuel : nat) :
  Forall (fun x => ordinary x = true) cs ->
  Re.branches group (S fuel) cs = Ok (literal cs Re.Eps, []).
Proof.
  intros H. cbn [Re.branches].
  rewrite sequence_ordinary by (auto; lia). reflexivity.
Qed.

(** A pattern of ordinary characters compiles to the expression that
    matches just that string. *)
Lemma re_compile_ordinary (pat : string) :
  Forall (fun x => ordinary x = true) (list_ascii_of_string pat) ->
  re_compile pat = Ok (literal (list_ascii_of_string pat) Re.Eps).
Proof.
  intros H. unfold re_compile.
  assert (C : Re.count_open (list_ascii_of_string pat) = O).
  { unfold Re.count_open. induction H as [ | c cs Hc _ IH]; [reflexivity | ].
    simpl. destruct (ordinary_tests c Hc) as (-> & _). exact IH. }
  rewrite C. change (100 <=? 0)%nat with false. cbv iota.
  change (Re.pattern 100 (list_ascii_of_string pat))
    with (Re.branches (Re.pattern 99) (S (List.length (list_ascii_of_string pat)))
            (list_ascii_of_string pat)).
  rewrite branches_ordinary by assumption. reflexivity.
Qed.

Lemma lang_literal (cs : list ascii) (acc : Re.regex) (w : string) :
  lang (literal cs acc) w <->
  exists u, w = (u ++ string_of_list_ascii cs)%string /\ lang acc u.
Proof.
  revert acc w; induction cs as [ | c cs IH]; intros acc w; simpl.
  - split.
    + intros H. exists w. rewrite append_empty_r. auto.
    + intros (u & -> & H). rewrite append_empty_r. exact H.
  - rewrite IH. split.
    + intros (u & -> & H). inversion H as [ | | | ? ? s1 s2 H1 H2 | | | | ]; subst.
      inversion H2; subst. exists s1. rewrite append_assoc. auto.
    + intros (u & -> & H). exists (u ++ String c "")%string.
      rewrite append_assoc. split; [reflexivity | ].
      constructor; [assumption | constructor].
Qed.

(** A pattern of ordinary characters matches the names that start with
    it, character for character. *)
Lemma ordinary_pattern_matches_its_extensions (pat s : string) :
  Forall (fun x => ordinary x = true) (list_ascii_of_string pat) ->
  exists regex,
    re_compile pat = Ok regex /\
    (Re.matches regex s = true <-> exists rest, s = (pat ++ rest)%string).
Proof.
  intros H. exists (literal (list_ascii_of_string pat) Re.Eps).
  split; [apply re_compile_ordinary; assumption | ].
  rewrite matches_spec. unfold matches_at_start. split.
  - intros (p & q & -> & Hp). apply lang_literal in Hp.
    destruct Hp as (u & -> & Hu). inversion Hu; subst.
    rewrite string_of_list_ascii_of_string. simpl. eauto.
  - intros (rest & ->). exists pat, rest. split; [reflexivity | ].
    apply lang_literal. exists "". rewrite string_of_list_ascii_of_string.
    split; [reflexivity | constructor].
Qed.

(** ** The steps of [main] *)

Lemma decimal_Raise (ds : list ascii) (e : exception) :
  decimal ds = Raise e -> e = ValueError.
Proof.
  unfold decimal. destruct ds as [ | d ds]; [congruence | ].
  destruct (forallb is_digit (d :: ds)); congruence.
Qed.

(** [int] on a string raises nothing but [ValueError]. *)
Lemma int_Raise (s : string) (e : exception) : int s = Raise e -> e = ValueError.
Proof.
  unfold int. destruct (_ || _); [discriminate | ].
  destruct (strip _) as [ | c ds]; [apply decimal_Raise | ].
  assert (D : forall z : res Z, (z = decimal ds \/ z = decimal (c :: ds)) ->
                                z = Raise e -> e = ValueError).
  { intros z [-> | ->]; apply decimal_Raise. }
  assert (M : (z <- decimal ds ;; Ok (- z)%Z) = Raise e -> e = ValueError).
  { intros H. apply bind_Raise in H. destruct H as [H | (z & _ & H)]; [ | discriminate].
    apply decimal_Raise in H; assumption. }
  destruct c as [[] [] [] [] [] [] [] []]; try (apply (D _ (or_intror eq_refl)));
    first [exact M | apply (D _ (or_introl eq_refl))].
Qed.

Lemma slice_results_Raise (p : params) (l : list data) (e : exception) :
  slice_results p l = Raise e -> e = ValueError.
Proof.
  unfold slice_results, int_of.
  destruct (truthy_bool (sort p)); simpl; [ | discriminate].
  destruct (sort_start p) as [a | ], (sort_end p) as [b | ]; simpl;
    repeat match goal with
      | |- context [negb ?c] => destruct c; simpl
      end;
    try discriminate;
    intros H;
    repeat match goal with
      | H : bind _ _ = Raise _ |- _ =>
          apply bind_Raise in H; destruct H as [H | (? & _ & H)]
      | H : int _ = Raise _ |- _ => apply int_Raise in H; exact H
      end; discriminate.
Qed.

(** What [slice_results] returns is a slice of its argument, and the
    argument itself when [sort] is not true. *)
Lemma slice_results_Ok (p : params) (l out : list data) :
  slice_results p l = Ok out ->
  (exists start stop, out = slice start stop l) /\
  (truthy_bool (sort p) = false -> out = l).
Proof.
  unfold slice_results. intros H.
  assert (W : l = slice None None l).
  { unfold slice. rewrite Z.sub_0_r, Nat2Z.id. simpl. symmetry. apply firstn_all. }
  destruct (truthy_bool (sort p)); simpl in H.
  - split; [ | discriminate].
    destruct (truthy_str (sort_start p)), (truthy_str (sort_end p)); simpl in H.
    + inv_bind H. inv_bind H. injection H as <-. eauto.
    + inv_bind H. injection H as <-. eauto.
    + inv_bind H. injection H as <-. eauto.
    + injection H as <-. exists None, None. exact W.
  - injection H as <-. split; [exists None, None; exact W | reflexivity].
Qed.

Lemma filter_results_Ok (p : params) (l kept : list data) :
  filter_results p l = Ok kept -> exists keep, kept = filter keep l.
Proof.
  unfold filter_results. destruct (truthy_str (name_regex p)).
  - intros H. inv_bind H. apply comprehension_Ok in H.
    destruct H as (keep & _ & ->). eauto.
  - intros H; injection H as <-. exists (fun _ => true).
    symmetry. apply forallb_filter_id. apply forallb_forall. reflexivity.
Qed.

Lemma name_le_leq (a b : data) :
  is_str (name a) = true -> is_str (name b) = true ->
  name_le a b = true -> name_leq a b.
Proof.
  unfold name_le, name_leq. destruct (name a), (name b); simpl; try discriminate.
  intros _ _ H. apply leb_lex_le in H. eauto.
Qed.

Lemma name_le_total (a b : data) :
  is_str (name a) = true -> is_str (name b) = true ->
  name_le a b = false -> name_le b a = true.
Proof.
  unfold name_le. destruct (name a) as [ | | | s | | ], (name b) as [ | | | t | | ];
    simpl; try discriminate.
  intros _ _ H. destruct (String.leb_total s t); congruence.
Qed.

Lemma name_le_trans (a b c : data) :
  is_str (name a) = true -> is_str (name b) = true -> is_str (name c) = true ->
  name_le a b = true -> name_le b c = true -> name_le a c = true.
Proof.
  unfold name_le.
  destruct (name a) as [ | | | s | | ], (name b) as [ | | | t | | ],
    (name c) as [ | | | u | | ]; simpl; try discriminate.
  intros _ _ _. rewrite !leb_lex_le. apply lex_le_trans.
Qed.

Lemma list_sort_Ok (reverse : bool) (l out : list data) :
  list_sort reverse l = Ok out ->
  Permutation l out /\
  StronglySorted (in_order (if reverse then descending else ascending)) out.
Proof.
  unfold list_sort. destruct (forallb _ l) eqn:Hstr.
  - intros H; injection H as <-.
    rewrite forallb_forall in Hstr. apply Forall_forall in Hstr.
    set (P := fun e : data => is_str (name e) = true) in *.
    assert (S : forall l', Forall P l' ->
                StronglySorted (fun a b => name_le a b = true) (stable_sort name_le l')).
    { apply stable_sort_StronglySorted; [apply name_le_total | apply name_le_trans]. }
    assert (Q : forall l', Forall P l' -> Forall P (stable_sort name_le l')).
    { intros l' Hl'. rewrite Forall_forall in *. intros x Hx. apply Hl'.
      apply (Permutation_in _ (Permutation_sym (stable_sort_Permutation name_le l'))).
      assumption. }
    destruct reverse.
    + split.
      * rewrite <- Permutation_rev. rewrite <- stable_sort_Permutation.
        apply Permutation_rev.
      * apply (StronglySorted_impl (fun a b => name_le b a = true) _ P).
        -- intros x y Px Py. apply name_le_leq; assumption.
        -- apply Forall_rev, Q, Forall_rev, Hstr.
        -- apply (StronglySorted_rev (fun a b => name_le a b = true)).
           apply S, Forall_rev, Hstr.
    + split; [apply stable_sort_Permutation | ].
      apply (StronglySorted_impl (fun a b => name_le a b = true) _ P).
      * intros x y Px Py. apply name_le_leq; assumption.
      * apply Q, Hstr.
      * apply S, Hstr.
  - destruct (Nat.leb_spec (List.length l) 1) as [Hlen | Hlen]; [ | discriminate].
    intros H; injection H as <-. split; [reflexivity | ].
    destruct l as [ | x [ | y l]]; simpl in Hlen; try lia; repeat constructor.
Qed.

Lemma sort_results_Ok (p : params) (kept ordered : list data) :
  sort_results p kept = Ok ordered ->
  if truthy_bool (sort p)
  then Permutation kept ordered /\ StronglySorted (in_order (sort_order p)) ordered
  else ordered = kept.
Proof.
  unfold sort_results. destruct (truthy_bool (sort p)).
  - intros H. apply list_sort_Ok in H. destruct (sort_order p); exact H.
  - intros H; injection H as <-. reflexivity.
Qed.

(** A run that ends in [exit_json] went through the four steps. *)
Lemma main_exit_json (p : params) (co : list string -> res string) (results : list data) :
  main p co = exit_json results ->
  exists fetched kept ordered,
    fetch p co = Ok fetched /\ filter_results p fetched = Ok kept /\
    sort_results p kept = Ok ordered /\ slice_results p ordered = Ok results.
Proof.
  unfold main.
  destruct (fetch p co) as [fetched | e | ] eqn:Hf; simpl; try discriminate.
  destruct (filter_results p fetched) as [kept | e | ] eqn:Hk; simpl; try discriminate.
  destruct (sort_results p kept) as [ordered | e | ] eqn:Ho; simpl; try discriminate.
  destruct (slice_results p ordered) as [out | e | ] eqn:Hs; try discriminate.
  - intros H; injection H as <-. exists fetched, kept, ordered. auto.
  - destruct e; discriminate.
Qed.

Lemma project_Ok (lc : json) (d : data) : project lc = Ok d <-> projects lc d.
Proof.
  unfold project, projects. split.
  - intros H. inv_bind H. inv_bind H. injection H as <-. simpl. auto.
  - intros [Ha Hn]. rewrite Ha; simpl. rewrite Hn; simpl. destruct d; reflexivity.
Qed.

Lemma getitem_modelled (v : json) (k : string) : getitem v k <> Unmodelled.
Proof. destruct v; simpl; try discriminate. destruct (dict_get k members); discriminate. Qed.

Lemma project_modelled (lc : json) : project lc <> Unmodelled.
Proof.
  unfold project. pose proof (getitem_modelled lc "LaunchConfigurationARN").
  pose proof (getitem_modelled lc "LaunchConfigurationName").
  destruct (getitem lc "LaunchConfigurationARN"); simpl; try congruence.
  destruct (getitem lc "LaunchConfigurationName"); simpl; congruence.
Qed.

(** The exceptions the body of the loop raises. *)
Lemma project_Raise (lc : json) (e : exception) :
  project lc = Raise e ->
  e = TypeError \/ e = KeyError "LaunchConfigurationARN" \/
  e = KeyError "LaunchConfigurationName".
Proof.
  assert (G : forall k e', getitem lc k = Raise e' -> e' = TypeError \/ e' = KeyError k).
  { intros k e'. destruct lc; simpl; try (intros H; injection H as <-; auto; fail).
    destruct (dict_get k members); [discriminate | ]. intros H; injection H as <-. auto. }
  unfold project. intros H.
  apply bind_Raise in H. destruct H as [H | (a & _ & H)].
  - apply G in H. tauto.
  - apply bind_Raise in H. destruct H as [H | (n & _ & H)]; [ | discriminate].
    apply G in H. tauto.
Qed.

Lemma fetch_eq (p : params) (co : list string -> res string) :
  fetch p co =
  (lc_cmd_result <- co (argv p) ;;
   lc_result <- json_loads lc_cmd_result ;;
   lcs <- getitem lc_result "LaunchConfigurations" ;;
   lcs <- iterate lcs ;;
   for_each project lcs).
Proof. reflexivity. Qed.

(** A fetch that succeeds read a JSON document with a
    [LaunchConfigurations] member and built one record per entry. *)
Lemma fetch_Ok (p : params) (co : list string -> res string) (fetched : list data) :
  fetch p co = Ok fetched ->
  exists text lc_result lcs items,
    co (argv p) = Ok text /\ json_loads text = Ok lc_result /\
    getitem lc_result "LaunchConfigurations" = Ok lcs /\ iterate lcs = Ok items /\
    Forall2 projects items fetched.
Proof.
  rewrite fetch_eq. intros H.
  apply bind_Ok in H. destruct H as (text & Ht & H).
  apply bind_Ok in H. destruct H as (lc_result & Hj & H).
  apply bind_Ok in H. destruct H as (lcs & Hl & H).
  apply bind_Ok in H. destruct H as (items & Hi & H).
  exists text, lc_result, lcs, items. repeat (split; [assumption | ]).
  apply for_each_Ok in H.
  eapply Forall2_impl; [ | exact H]. intros lc d. apply project_Ok.
Qed.

Lemma main_fetch_Raise (p : params) (co : list string -> res string) (e : exception) :
  fetch p co = Raise e -> main p co = uncaught e.
Proof. unfold main. intros ->. reflexivity. Qed.

(** With nothing fetched, accepted parameters lead to the empty result. *)
Lemma main_nothing_fetched (p : params) (co : list string -> res string) :
  fetch p co = Ok [] -> accepted p = true -> main p co = exit_json [].
Proof.
  unfold main, accepted. intros -> H. simpl.
  apply andb_true_iff in H. destruct H as [Hre Hint].
  unfold filter_results, sort_results, slice_results.
  assert (F : (if truthy_str (name_regex p)
               then regex <- re_compile_of (name_regex p) ;;
                    comprehension (fun result => regex_match regex (name result)) []
               else Ok []) = Ok []).
  { destruct (truthy_str (name_regex p)); [ | reflexivity].
    destruct (re_compile_of (name_regex p)); try discriminate. reflexivity. }
  rewrite F. simpl.
  destruct (truthy_bool (sort p)); simpl; [ | reflexivity].
  unfold list_sort. simpl. destruct (is_descending (sort_order p)); simpl.
  - apply andb_true_iff in Hint. destruct Hint as [Ha Hb].
    destruct (truthy_str (sort_start p)), (truthy_str (sort_end p)); simpl;
      repeat match goal with
        | H : is_Ok ?c = true |- context [?c] => destruct c; try discriminate; simpl
        end; rewrite ?slice_nil; reflexivity.
  - apply andb_true_iff in Hint. destruct Hint as [Ha Hb].
    destruct (truthy_str (sort_start p)), (truthy_str (sort_end p)); simpl;
      repeat match goal with
        | H : is_Ok ?c = true |- context [?c] => destruct c; try discriminate; simpl
        end; rewrite ?slice_nil; reflexivity.
Qed.

(** * The claims *)

(** ** Non-numeric slice bounds *)

(** The handler of [main] is never entered: no run ends in [fail_json]. *)
Lemma main_never_fail_json (p : params) (co : list string -> res string) (msg : string) :
  main p co <> fail_json msg.
Proof.
  unfold main.
  destruct (fetch p co) as [fetched | e | ]; simpl; try discriminate.
  destruct (filter_results p fetched) as [kept | e | ]; simpl; try discriminate.
  destruct (sort_results p kept) as [ordered | e | ]; simpl; try discriminate.
  destruct (slice_results p ordered) as [out | e | ] eqn:Hs; try discriminate.
  apply slice_results_Raise in Hs. subst e. discriminate.
Qed.

(** C1.  With [sort] true and [sort_start="x"], [int("x")] raises
    [ValueError], which [except TypeError] does not catch: the run ends
    in the uncaught exception and returns no results, but the message
    about numeric values is not produced, and no run produces it. *)
Theorem non_numeric_sort_start_escapes_the_handler :
  int "x" = Raise ValueError /\
  main (with_sort (Some true) ascending (Some "x") None) (answers cab)
    = uncaught ValueError /\
  forall p co msg, main p co <> fail_json msg.
Proof.
  split; [reflexivity | split; [vm_compute; reflexivity | ]].
  exact main_never_fail_json.
Qed.

(** ** Malformed and empty responses *)

(** C2, as stated, fails: an empty response and a response that is not
    the expected document end the run with an exception, not with an
    empty result. *)
Lemma empty_response_is_not_an_empty_result :
  json_loads "" = Raise ValueError /\
  main no_options (fun _ => Ok "") = uncaught ValueError /\
  main no_options (fun _ => Ok "") <> exit_json [] /\
  main no_options (answers "{'LaunchConfigurations': ") = uncaught ValueError /\
  main no_options (answers "{}") = uncaught (KeyError "LaunchConfigurations").
Proof.
  split; [reflexivity | ]. split; [reflexivity | ]. split; [discriminate | ].
  split; vm_compute; reflexivity.
Qed.

(** C2, amended.  A failure of the external call propagates unchanged; a
    response [json.loads] rejects, the empty one included, one without a
    [LaunchConfigurations] member, or one whose [LaunchConfigurations]
    cannot be iterated ends the run with the exception raised there, so
    that a run returns results only for a response that passes all
    three; a response whose [LaunchConfigurations] holds no entry (the
    empty list, and the empty dictionary or string as well) gives the
    empty result, when the parameters are accepted. *)
Theorem malformed_response_is_an_error (p : params) (co : list string -> res string) :
  (forall e, co (argv p) = Raise e -> main p co = uncaught e) /\
  (forall text e,
      co (argv p) = Ok text -> json_loads text = Raise e -> main p co = uncaught e) /\
  (forall text lc_result e,
      co (argv p) = Ok text -> json_loads text = Ok lc_result ->
      getitem lc_result "LaunchConfigurations" = Raise e -> main p co = uncaught e) /\
  (forall text lc_result lcs e,
      co (argv p) = Ok text -> json_loads text = Ok lc_result ->
      getitem lc_result "LaunchConfigurations" = Ok lcs ->
      iterate lcs = Raise e -> main p co = uncaught e) /\
  (forall results,
      main p co = exit_json results ->
      exists text lc_result lcs items,
        co (argv p) = Ok text /\ json_loads text = Ok lc_result /\
        getitem lc_result "LaunchConfigurations" = Ok lcs /\ iterate lcs = Ok items) /\
  (forall text lc_result lcs,
      co (argv p) = Ok text -> json_loads text = Ok lc_result ->
      getitem lc_result "LaunchConfigurations" = Ok lcs -> iterate lcs = Ok [] ->
      accepted p = true -> main p co = exit_json []).
Proof.
  split; [ | split; [ | split; [ | split; [ | split]]]].
  - intros e H. apply main_fetch_Raise. rewrite fetch_eq, H. reflexivity.
  - intros text e H1 H2. apply main_fetch_Raise. rewrite fetch_eq, H1. simpl.
    rewrite H2. reflexivity.
  - intros text j e H1 H2 H3. apply main_fetch_Raise. rewrite fetch_eq, H1. simpl.
    rewrite H2. simpl. rewrite H3. reflexivity.
  - intros text j lcs e H1 H2 H3 H4. apply main_fetch_Raise. rewrite fetch_eq, H1. simpl.
    rewrite H2. simpl. rewrite H3. simpl. rewrite H4. reflexivity.
  - intros results H. apply main_exit_json in H.
    destruct H as (fetched & _ & _ & Hf & _). apply fetch_Ok in Hf.
    destruct Hf as (text & j & lcs & items & H1 & H2 & H3 & H4 & _).
    exists text, j, lcs, items. auto.
  - intros text j lcs H1 H2 H3 H4 H5. apply main_nothing_fetched; [ | exact H5].
    rewrite fetch_eq, H1. simpl. rewrite H2. simpl. rewrite H3. simpl. rewrite H4.
    reflexivity.
Qed.

Lemma malformed_response_is_an_error_witness :
  main no_options (fun _ => Raise (CalledProcessError 255))
    = uncaught (CalledProcessError 255) /\
  main no_options (answers "") = uncaught ValueError /\
  main no_options (answers "[]") = uncaught TypeError /\
  main no_options (answers "{'LaunchConfigurations': 3}") = uncaught TypeError /\
  (exists text lc_result lcs items,
      answers two_lcs (argv no_options) = Ok text /\ json_loads text = Ok lc_result /\
      getitem lc_result "LaunchConfigurations" = Ok lcs /\ iterate lcs = Ok items) /\
  main (with_sort (Some true) descending (Some "0") (Some "10"))
    (answers "{'LaunchConfigurations': []}") = exit_json [] /\
  main no_options (answers "{'LaunchConfigurations': {}}") = exit_json [].
Proof.
  split; [ | split; [ | split; [ | split; [ | split; [ | split]]]]].
  - apply (proj1 (malformed_response_is_an_error no_options _)). reflexivity.
  - apply (proj1 (proj2 (malformed_response_is_an_error no_options _)) "");
      reflexivity.
  - apply (proj1 (proj2 (proj2 (malformed_response_is_an_error no_options _)))
             "[]" (JArr [])); reflexivity.
  - apply (proj1 (proj2 (proj2 (proj2 (malformed_response_is_an_error no_options _))))
             (quoted "{'LaunchConfigurations': 3}")
             (JObj [("LaunchConfigurations", JNum "3")]) (JNum "3")); reflexivity.
  - apply (proj1 (proj2 (proj2 (proj2 (proj2
             (malformed_response_is_an_error no_options (answers two_lcs))))))
             [lc "lc-a" "arn:a"; lc "lc-b" "arn:b"]).
    vm_compute. reflexivity.
  - apply (proj2 (proj2 (proj2 (proj2 (proj2
             (malformed_response_is_an_error
                (with_sort (Some true) descending (Some "0") (Some "10")) _)))))
             (quoted "{'LaunchConfigurations': []}")
             (JObj [("LaunchConfigurations", JArr [])]) (JArr [])); reflexivity.
  - apply (proj2 (proj2 (proj2 (proj2 (proj2
             (malformed_response_is_an_error no_options _)))))
             (quoted "{'LaunchConfigurations': {}}")
             (JObj [("LaunchConfigurations", JObj [])]) (JObj [])); reflexivity.
Defined.

(** ** The filter *)

Lemma matches_whole_at_start (r : Re.regex) (s : string) :
  matches_whole r s -> matches_at_start r s.
Proof. intros H. exists s, "". rewrite append_empty_r. auto. Qed.

Lemma matches_at_start_somewhere (r : Re.regex) (s : string) :
  matches_at_start r s -> matches_somewhere r s.
Proof. intros (p & q & -> & H). exists "", p, q. auto. Qed.

(** A match at the start need not be a match of the whole name, a match
    further inside the name is not one, and letters match only
    themselves. *)
Example anchored_neither_whole_nor_anywhere :
  re_compile "lc-a" = Ok lc_a /\
  Re.matches lc_a "lc-a-1" = true /\ Re.fullmatches lc_a "lc-a-1" = false /\
  Re.matches lc_a "x-lc-a" = false /\ Re.searches lc_a "x-lc-a" = true /\
  Re.matches lc_a "LC-A" = false.
Proof. repeat split; reflexivity. Qed.

Example filter_named :
  filter_results (with_name_regex (Some "lc-a")) named
  = Ok [lc "lc-a-1" "arn:1"; lc "lc-a" "arn:4"].
Proof. vm_compute. reflexivity. Qed.

(** C3.  With names that are strings, a [name_regex] that compiles
    keeps, in their order, exactly the records whose name has a prefix
    the expression matches in full (a match anchored at the start, of
    any length, character for character); without [name_regex] the step
    returns the list as it is. *)
Theorem filter_keeps_the_anchored_matches (p : params) (results : list data) :
  Forall has_str_name results ->
  match name_regex p with
  | None => filter_results p results = Ok results
  | Some pat =>
      forall regex, re_compile pat = Ok regex ->
      exists keep,
        filter_results p results = Ok (filter keep results) /\
        forall d, In d results ->
          (keep d = true <-> exists s, name d = JStr s /\ matches_at_start regex s)
  end.
Proof.
  intros Hstr. unfold filter_results.
  destruct (name_regex p) as [pat | ]; simpl; [ | reflexivity].
  intros regex Hre. destruct (String.eqb_spec pat "") as [-> | Hne]; simpl.
  - injection Hre as <-. exists (fun _ => true). split.
    + f_equal. symmetry. apply forallb_filter_id. apply forallb_forall. reflexivity.
    + intros d Hd. split; [intros _ | reflexivity].
      rewrite Forall_forall in Hstr. specialize (Hstr d Hd). unfold has_str_name in Hstr.
      destruct (name d) as [ | | | s | | ]; try discriminate.
      exists s. split; [reflexivity | ]. exists "", s. split; [reflexivity | constructor].
  - rewrite Hre. simpl.
    exists (fun d => match name d with JStr s => Re.matches regex s | _ => false end).
    split.
    + apply comprehension_filter. eapply Forall_impl; [ | exact Hstr].
      unfold has_str_name. intros d Hd. destruct (name d); try discriminate. reflexivity.
    + intros d _. destruct (name d) as [ | | | s | | ];
        try (split; [discriminate | intros (s & E & _); discriminate]).
      rewrite matches_spec. split; [eauto | ].
      intros (s' & E & H). injection E as ->. exact H.
Qed.

Lemma filter_keeps_the_anchored_matches_witness :
  Forall has_str_name named /\
  exists keep,
    filter_results (with_name_regex (Some "lc-a")) named = Ok (filter keep named) /\
    forall d, In d named ->
      (keep d = true <-> exists s, name d = JStr s /\ matches_at_start lc_a s).
Proof.
  assert (H : Forall has_str_name named) by (repeat constructor).
  split; [exact H | ].
  exact (filter_keeps_the_anchored_matches (with_name_regex (Some "lc-a")) named H
           lc_a eq_refl).
Defined.

(** ** The sort *)

Lemma StronglySorted_infix {A : Type} (R : A -> A -> Prop) (before l after : list A) :
  StronglySorted R (before ++ l ++ after) -> StronglySorted R l.
Proof.
  intros H. apply StronglySorted_app_inv in H. destruct H as [_ H].
  apply StronglySorted_app_inv in H. tauto.
Qed.

Example sort_cab :
  main (with_sort (Some true) ascending None None) (answers cab)
  = exit_json [lc "a" "arn:a"; lc "b" "arn:b"; lc "c" "arn:c"] /\
  main (with_sort (Some true) descending None None) (answers cab)
  = exit_json [lc "c" "arn:c"; lc "b" "arn:b"; lc "a" "arn:a"] /\
  main (with_sort None descending None None) (answers cab)
  = exit_json [lc "c" "arn:c"; lc "a" "arn:a"; lc "b" "arn:b"].
Proof. repeat split; vm_compute; reflexivity. Qed.

(** C4.  In a run that returns results, with [sort] true every record
    comes before the later ones in the lexicographic order of the names,
    read upwards for [ascending] and downwards for [descending]; with
    [sort] false or absent the results are the fetched records the
    filter keeps, in the order they were fetched. *)
Theorem results_are_ordered
  (p : params) (co : list string -> res string) (results : list data) :
  main p co = exit_json results ->
  if truthy_bool (sort p)
  then StronglySorted (in_order (sort_order p)) results
  else exists fetched keep,
      fetch p co = Ok fetched /\ filter_results p fetched = Ok results /\
      results = filter keep fetched.
Proof.
  intros H. apply main_exit_json in H.
  destruct H as (fetched & kept & ordered & Hf & Hk & Ho & Hs).
  apply sort_results_Ok in Ho. apply slice_results_Ok in Hs.
  destruct Hs as [(start & stop & Hs) Hsame].
  destruct (truthy_bool (sort p)).
  - destruct Ho as [_ Ho].
    destruct (slice_infix start stop ordered) as (before & after & E).
    rewrite E, <- Hs in Ho. apply StronglySorted_infix in Ho. exact Ho.
  - subst ordered. rewrite (Hsame eq_refl).
    destruct (filter_results_Ok _ _ _ Hk) as (keep & Hkeep).
    exists fetched, keep. auto.
Qed.

Lemma results_are_ordered_witness :
  StronglySorted (in_order descending)
    [lc "c" "arn:c"; lc "b" "arn:b"; lc "a" "arn:a"].
Proof.
  apply (results_are_ordered (with_sort (Some true) descending None None) (answers cab)).
  vm_compute. reflexivity.
Defined.

(** ** The slice *)

Example slice_abc :
  slice_results (with_sort (Some true) ascending (Some "1") (Some "2")) abc
  = Ok [lc "b" "arn:b"] /\
  slice_results (with_sort (Some true) ascending (Some "1") (Some "20")) abc
  = Ok [lc "b" "arn:b"; lc "c" "arn:c"] /\
  slice_results (with_sort (Some true) ascending None (Some " 2 ")) abc
  = Ok [lc "a" "arn:a"; lc "b" "arn:b"] /\
  slice_results (with_sort (Some true) ascending (Some "2") (Some "1")) abc = Ok [].
Proof. repeat split; vm_compute; reflexivity. Qed.

(** A negative bound counts from the end of the sequence. *)
Example slice_from_the_end :
  int "-1" = Ok (-1)%Z /\
  slice_results (with_sort (Some true) ascending (Some "-1") None) abc
  = Ok [lc "c" "arn:c"] /\
  slice_results (with_sort (Some true) ascending (Some "-3") (Some "-1")) abc
  = Ok [lc "a" "arn:a"; lc "b" "arn:b"].
Proof.
  split; [reflexivity | ]. split; vm_compute; reflexivity.
Qed.

(** C5.  With [sort] true and a bound in use, the slice is the
    half-open range between the bounds, where a bound that is absent or
    empty is missing (0 at the start, the length at the end), a negative
    bound stands for its distance from the end, and a bound beyond the
    sequence selects no more than the sequence has. *)
Theorem slice_is_the_half_open_range
  (p : params) (results : list data) (start stop : option Z) :
  truthy_bool (sort p) = true ->
  truthy_str (sort_start p) || truthy_str (sort_end p) = true ->
  bound (sort_start p) start -> bound (sort_end p) stop ->
  slice_results p results =
  Ok (half_open_range
        (option_map (from_end (Z.of_nat (List.length results))) start)
        (option_map (from_end (Z.of_nat (List.length results))) stop)
        results).
Proof.
  unfold slice_results, bound. intros Hsort Hone Hstart Hstop.
  rewrite Hsort. simpl. rewrite <- slice_half_open_range.
  destruct (truthy_str (sort_start p)), (truthy_str (sort_end p));
    simpl in *; try discriminate.
  - destruct Hstart as (i & -> & ->). destruct Hstop as (j & -> & ->). reflexivity.
  - destruct Hstart as (i & -> & ->). subst stop. reflexivity.
  - destruct Hstop as (j & -> & ->). subst start. reflexivity.
Qed.

Lemma slice_is_the_half_open_range_witness :
  slice_results (with_sort (Some true) ascending (Some "1") (Some "2")) abc
  = Ok [lc "b" "arn:b"].
Proof.
  apply (slice_is_the_half_open_range
           (with_sort (Some true) ascending (Some "1") (Some "2")) abc
           (Some 1%Z) (Some 2%Z)).
  - reflexivity.
  - reflexivity.
  - exists 1%Z. split; reflexivity.
  - exists 2%Z. split; reflexivity.
Defined.

(** Without [sort] the slicing step returns its argument. *)
Lemma slice_results_without_sort (p : params) (results : list data) :
  truthy_bool (sort p) = false -> slice_results p results = Ok results.
Proof. unfold slice_results. intros ->. reflexivity. Qed.

(** C6.  With [sort] absent or false, two runs on the same response
    whose parameters differ only in [sort_start] and [sort_end] end the
    same way: nothing is sliced and nothing is reordered. *)
Theorem bounds_are_ignored_without_sort
  (p p' : params) (co : list string -> res string) :
  region p = region p' -> name_regex p = name_regex p' ->
  sort p = sort p' -> sort_order p = sort_order p' ->
  truthy_bool (sort p) = false ->
  main p co = main p' co.
Proof.
  intros Hr Hn Hs Ho Hfalse.
  assert (Hfalse' : truthy_bool (sort p') = false) by (rewrite <- Hs; exact Hfalse).
  assert (F : fetch p co = fetch p' co) by (rewrite !fetch_eq; unfold argv; rewrite Hr; reflexivity).
  assert (K : forall l, filter_results p l = filter_results p' l)
    by (intros l; unfold filter_results; rewrite Hn; reflexivity).
  assert (S : forall l, sort_results p l = Ok l /\ sort_results p' l = Ok l)
    by (intros l; unfold sort_results; rewrite Hfalse, Hfalse'; auto).
  unfold main. rewrite F. destruct (fetch p' co) as [fetched | e | ]; simpl; try reflexivity.
  rewrite K. destruct (filter_results p' fetched) as [kept | e | ]; simpl; try reflexivity.
  destruct (S kept) as [-> ->].
  rewrite !slice_results_without_sort by assumption. reflexivity.
Qed.

Lemma bounds_are_ignored_without_sort_witness :
  main (with_sort (Some false) ascending (Some "x") (Some "1")) (answers cab)
  = main (with_sort (Some false) ascending None (Some "-2")) (answers cab).
Proof.
  apply bounds_are_ignored_without_sort; reflexivity.
Defined.

Example bounds_ignored :
  main (with_sort None ascending (Some "x") (Some "1")) (answers cab)
  = exit_json [lc "c" "arn:c"; lc "a" "arn:a"; lc "b" "arn:b"].
Proof. vm_compute. reflexivity. Qed.

(** ** The pipeline as a whole *)

(** C7.  The results of a run are a run of consecutive records of the
    kept records in their final order, which are the fetched records
    that pass the filter, sorted as [sort_order] asks when [sort] is
    true and in the order of the fetch otherwise; so there are no more
    results than fetched records. *)
Theorem results_are_a_range_of_the_fetched
  (p : params) (co : list string -> res string) (results : list data) :
  main p co = exit_json results ->
  exists fetched keep ordered before after,
    fetch p co = Ok fetched /\
    (if truthy_bool (sort p)
     then Permutation (filter keep fetched) ordered /\
          StronglySorted (in_order (sort_order p)) ordered
     else ordered = filter keep fetched) /\
    ordered = before ++ results ++ after /\
    (List.length results <= List.length fetched)%nat.
Proof.
  intros H. apply main_exit_json in H.
  destruct H as (fetched & kept & ordered & Hf & Hk & Ho & Hs).
  apply filter_results_Ok in Hk. destruct Hk as (keep & ->).
  apply sort_results_Ok in Ho. apply slice_results_Ok in Hs.
  destruct Hs as [(start & stop & ->) _].
  destruct (slice_infix start stop ordered) as (before & after & E).
  exists fetched, keep, ordered, before, after.
  split; [exact Hf | ]. split; [exact Ho | ]. split; [exact E | ].
  assert (L : List.length ordered = List.length (filter keep fetched)).
  { destruct (truthy_bool (sort p)).
    - destruct Ho as [Ho _]. symmetry. apply Permutation_length. exact Ho.
    - rewrite Ho. reflexivity. }
  pose proof (slice_length_le start stop ordered).
  pose proof (filter_length_le keep fetched). lia.
Qed.

Lemma results_are_a_range_of_the_fetched_witness :
  exists fetched keep ordered before after,
    fetch (with_sort (Some true) ascending (Some "1") (Some "2")) (answers cab)
      = Ok fetched /\
    (Permutation (filter keep fetched) ordered /\
     StronglySorted (in_order ascending) ordered) /\
    ordered = before ++ [lc "b" "arn:b"] ++ after /\
    (1 <= List.length fetched)%nat.
Proof.
  apply (results_are_a_range_of_the_fetched
           (with_sort (Some true) ascending (Some "1") (Some "2")) (answers cab)).
  vm_compute. reflexivity.
Defined.

(** ** The fetched records *)

Example two_records :
  main no_options (answers two_lcs)
  = exit_json [lc "lc-a" "arn:a"; lc "lc-b" "arn:b"] /\
  main (with_name_regex (Some "lc-a")) (answers two_lcs)
  = exit_json [lc "lc-a" "arn:a"].
Proof. split; vm_compute; reflexivity. Qed.

(** C8.  Without [name_regex] the list handed to the sort is the fetched
    list, and the fetched list has one record for each entry of the
    response's [LaunchConfigurations]. *)
Theorem no_name_regex_keeps_every_record
  (p : params) (co : list string -> res string) (fetched : list data) :
  name_regex p = None -> fetch p co = Ok fetched ->
  filter_results p fetched = Ok fetched /\
  exists text lc_result lcs items,
    co (argv p) = Ok text /\ json_loads text = Ok lc_result /\
    getitem lc_result "LaunchConfigurations" = Ok lcs /\ iterate lcs = Ok items /\
    Forall2 projects items fetched /\
    List.length fetched = List.length items.
Proof.
  intros Hn Hf. split.
  - unfold filter_results. rewrite Hn. reflexivity.
  - apply fetch_Ok in Hf. destruct Hf as (text & j & lcs & items & H1 & H2 & H3 & H4 & H5).
    exists text, j, lcs, items. repeat (split; [assumption | ]).
    symmetry. eapply Forall2_length. exact H5.
Qed.

Lemma no_name_regex_keeps_every_record_witness :
  filter_results no_options [lc "lc-a" "arn:a"; lc "lc-b" "arn:b"]
  = Ok [lc "lc-a" "arn:a"; lc "lc-b" "arn:b"] /\
  exists text lc_result lcs items,
    answers two_lcs (argv no_options) = Ok text /\ json_loads text = Ok lc_result /\
    getitem lc_result "LaunchConfigurations" = Ok lcs /\ iterate lcs = Ok items /\
    Forall2 projects items [lc "lc-a" "arn:a"; lc "lc-b" "arn:b"] /\
    List.length [lc "lc-a" "arn:a"; lc "lc-b" "arn:b"] = List.length items.
Proof.
  apply (no_name_regex_keeps_every_record no_options (answers two_lcs)).
  - reflexivity.
  - vm_compute. reflexivity.
Defined.

(** C9.  An empty [name_regex] behaves as an absent one: the filtering
    step returns its argument untouched, and the whole run ends as it
    does without [name_regex]. *)
Theorem empty_name_regex_is_no_name_regex :
  forall (r : string) (so : option bool) (o : order) (start stop : option string)
         (co : list string -> res string) (results : list data),
    filter_results {| region := r; name_regex := Some ""; sort := so; sort_order := o;
                      sort_start := start; sort_end := stop |} results
    = Ok results /\
    main {| region := r; name_regex := Some ""; sort := so; sort_order := o;
            sort_start := start; sort_end := stop |} co
    = main {| region := r; name_regex := None; sort := so; sort_order := o;
              sort_start := start; sort_end := stop |} co.
Proof.
  intros. split; [reflexivity | ].
  unfold main.
  change (fetch {| region := r; name_regex := Some ""; sort := so; sort_order := o;
                   sort_start := start; sort_end := stop |} co)
    with (fetch {| region := r; name_regex := None; sort := so; sort_order := o;
                   sort_start := start; sort_end := stop |} co).
  destruct (fetch _ co) as [fetched | e | ]; reflexivity.
Qed.

(** ** The projection of an entry *)

(** C10.  Every record of the results comes from an entry of the
    response's [LaunchConfigurations]: its [arn] is the entry's
    [LaunchConfigurationARN], its [name] the entry's
    [LaunchConfigurationName], and it holds nothing else of the entry;
    the fetched records are these projections, entry by entry; and an
    entry without one of the two keys ends the run with an exception
    instead of being skipped. *)
Theorem records_are_projections_of_entries
  (p : params) (co : list string -> res string) :
  (forall results d, main p co = exit_json results -> In d results ->
     exists text lc_result lcs items lc,
       co (argv p) = Ok text /\ json_loads text = Ok lc_result /\
       getitem lc_result "LaunchConfigurations" = Ok lcs /\ iterate lcs = Ok items /\
       In lc items /\
       getitem lc "LaunchConfigurationARN" = Ok (arn d) /\
       getitem lc "LaunchConfigurationName" = Ok (name d)) /\
  (forall fetched, fetch p co = Ok fetched ->
     exists text lc_result lcs items,
       co (argv p) = Ok text /\ json_loads text = Ok lc_result /\
       getitem lc_result "LaunchConfigurations" = Ok lcs /\ iterate lcs = Ok items /\
       Forall2 (fun lc d =>
                  exists a n,
                    getitem lc "LaunchConfigurationARN" = Ok a /\
                    getitem lc "LaunchConfigurationName" = Ok n /\
                    d = {| arn := a; name := n |}) items fetched) /\
  (forall text lc_result items lc,
     co (argv p) = Ok text -> json_loads text = Ok lc_result ->
     getitem lc_result "LaunchConfigurations" = Ok (JArr items) ->
     In lc items -> lacks_key lc ->
     exists e, main p co = uncaught e /\
       (e = TypeError \/ e = KeyError "LaunchConfigurationARN" \/
        e = KeyError "LaunchConfigurationName")).
Proof.
  split; [ | split].
  - intros results d H Hd. apply main_exit_json in H.
    destruct H as (fetched & kept & ordered & Hf & Hk & Ho & Hs).
    apply filter_results_Ok in Hk. destruct Hk as (keep & ->).
    apply sort_results_Ok in Ho. apply slice_results_Ok in Hs.
    destruct Hs as [(start & stop & ->) _].
    destruct (slice_infix start stop ordered) as (before & after & E).
    assert (Hin : In d ordered).
    { rewrite E. apply in_or_app. right. apply in_or_app. left. exact Hd. }
    assert (Hkept : In d (filter keep fetched)).
    { destruct (truthy_bool (sort p)).
      - destruct Ho as [Ho _]. apply (Permutation_in _ (Permutation_sym Ho)). exact Hin.
      - rewrite <- Ho. exact Hin. }
    apply filter_In in Hkept. destruct Hkept as [Hfetched _].
    apply fetch_Ok in Hf.
    destruct Hf as (text & j & lcs & items & H1 & H2 & H3 & H4 & H5).
    destruct (Forall2_in_r _ _ _ _ H5 Hfetched) as (lc0 & Hlc & Ha & Hn).
    exists text, j, lcs, items, lc0. auto 10.
  - intros fetched Hf. apply fetch_Ok in Hf.
    destruct Hf as (text & j & lcs & items & H1 & H2 & H3 & H4 & H5).
    exists text, j, lcs, items. repeat (split; [assumption | ]).
    eapply Forall2_impl; [ | exact H5]. intros lc0 d [Ha Hn].
    exists (arn d), (name d). destruct d; auto.
  - intros text j items lc0 H1 H2 H3 Hin (m & -> & Hm).
    assert (Hr : exists e, project (JObj m) = Raise e).
    { unfold project. simpl. destruct Hm as [-> | Hm]; simpl; [eauto | ].
      destruct (dict_get "LaunchConfigurationARN" m); simpl; [ | eauto].
      rewrite Hm. simpl. eauto. }
    destruct Hr as (e0 & Hr).
    destruct (for_each_Raise project items (JObj m) e0
                (fun y _ => project_modelled y) Hin Hr) as (y & e & _ & Hy & Hfe).
    exists e. split; [ | apply (project_Raise y); exact Hy].
    apply main_fetch_Raise. rewrite fetch_eq, H1. simpl. rewrite H2. simpl.
    rewrite H3. simpl. exact Hfe.
Qed.

Lemma records_are_projections_of_entries_witness :
  (exists text lc_result lcs items entry,
      answers two_lcs (argv no_options) = Ok text /\ json_loads text = Ok lc_result /\
      getitem lc_result "LaunchConfigurations" = Ok lcs /\ iterate lcs = Ok items /\
      In entry items /\
      getitem entry "LaunchConfigurationARN" = Ok (JStr "arn:b") /\
      getitem entry "LaunchConfigurationName" = Ok (JStr "lc-b")) /\
  (exists e,
      main no_options
        (answers "{'LaunchConfigurations': [
                     {'LaunchConfigurationName': 'a', 'LaunchConfigurationARN': '1'},
                     {'LaunchConfigurationName': 'b', 'ImageId': 'ami-1'}]}")
      = uncaught e /\
      (e = TypeError \/ e = KeyError "LaunchConfigurationARN" \/
       e = KeyError "LaunchConfigurationName")).
Proof.
  split.
  - apply (proj1 (records_are_projections_of_entries no_options (answers two_lcs))
             [lc "lc-a" "arn:a"; lc "lc-b" "arn:b"] (lc "lc-b" "arn:b")).
    + vm_compute. reflexivity.
    + simpl. auto.
  - eapply (proj2 (proj2 (records_are_projections_of_entries no_options _)) _ _ _
              (JObj [("LaunchConfigurationName", JStr "b"); ("ImageId", JStr "ami-1")])).
    + reflexivity.
    + vm_compute. reflexivity.
    + reflexivity.
    + simpl. auto.
    + eexists. split; [reflexivity | ]. left. reflexivity.
Defined.

Example missing_key :
  main no_options
    (answers "{'LaunchConfigurations': [
                 {'LaunchConfigurationName': 'a', 'LaunchConfigurationARN': '1'},
                 {'LaunchConfigurationName': 'b', 'ImageId': 'ami-1'}]}")
  = uncaught (KeyError "LaunchConfigurationARN").
Proof. vm_compute. reflexivity. Qed.

(** * Further properties of [main] *)

(** ** How the steps make up a run *)

Lemma main_steps (p : params) (co : list string -> res string)
      (fetched kept ordered : list data) :
  fetch p co = Ok fetched -> filter_results p fetched = Ok kept ->
  sort_results p kept = Ok ordered ->
  main p co =
  match slice_results p ordered with
  | Ok results => exit_json results
  | Raise TypeError => fail_json numeric_msg
  | Raise e => uncaught e
  | Unmodelled => unmodelled
  end.
Proof. unfold main. intros -> Hk Ho. simpl. rewrite Hk. simpl. rewrite Ho. reflexivity. Qed.

Lemma main_filter_Raise (p : params) (co : list string -> res string)
      (fetched : list data) (e : exception) :
  fetch p co = Ok fetched -> filter_results p fetched = Raise e -> main p co = uncaught e.
Proof. unfold main. intros -> Hk. simpl. rewrite Hk. reflexivity. Qed.

Lemma slice_results_unused (p : params) (l : list data) :
  bounds_unused p = true -> slice_results p l = Ok l.
Proof.
  unfold bounds_unused, slice_results.
  destruct (truthy_bool (sort p)), (truthy_str (sort_start p)), (truthy_str (sort_end p));
    simpl; intros H; try discriminate; reflexivity.
Qed.

(** ** Errors in the parameters *)

(** X1.  Once the response is fetched, a [name_regex] that does not
    compile ends the run with the compiler's exception, whatever the
    response holds and whatever the sorting parameters are. *)
Theorem invalid_name_regex_ends_the_run
  (p : params) (co : list string -> res string) (fetched : list data)
  (pat : string) (e : exception) :
  fetch p co = Ok fetched -> name_regex p = Some pat -> pat <> "" ->
  re_compile pat = Raise e ->
  main p co = uncaught e.
Proof.
  intros Hf Hn Hne He. apply (main_filter_Raise p co fetched); [exact Hf | ].
  unfold filter_results. rewrite Hn. simpl.
  apply String.eqb_neq in Hne. rewrite Hne. simpl. rewrite He. reflexivity.
Qed.

Lemma invalid_name_regex_ends_the_run_witness :
  main {| region := "eu-west-1"; name_regex := Some "lc-(a"; sort := Some true;
          sort_order := descending; sort_start := Some "1"; sort_end := None |}
    (answers "{'LaunchConfigurations': []}")
  = uncaught re_error.
Proof.
  apply (invalid_name_regex_ends_the_run _ _ [] "lc-(a").
  - vm_compute. reflexivity.
  - reflexivity.
  - discriminate.
  - vm_compute. reflexivity.
Defined.

(** X2.  A run with [sort] true that returns results has read every
    bound in use as an integer: no results come out of a run whose
    [sort_start] or [sort_end] is not a numeral. *)
Theorem results_need_numeric_bounds
  (p : params) (co : list string -> res string) (results : list data) :
  main p co = exit_json results -> truthy_bool (sort p) = true ->
  (truthy_str (sort_start p) = true -> exists i, int_of (sort_start p) = Ok i) /\
  (truthy_str (sort_end p) = true -> exists j, int_of (sort_end p) = Ok j).
Proof.
  intros H Hsort. apply main_exit_json in H.
  destruct H as (fetched & kept & ordered & _ & _ & _ & Hs).
  unfold slice_results in Hs. rewrite Hsort in Hs. simpl in Hs.
  destruct (truthy_str (sort_start p)), (truthy_str (sort_end p)); simpl in Hs;
    (split; [intros Ha | intros Hb]); try discriminate;
    repeat match goal with
      | H : bind (int_of ?v) _ = Ok _ |- _ =>
          let i := fresh "i" in
          apply bind_Ok in H; destruct H as (i & ? & H)
      end; eauto.
Qed.

Lemma results_need_numeric_bounds_witness :
  (truthy_str (Some " 1") = true -> exists i, int_of (Some " 1") = Ok i) /\
  (truthy_str (Some "-1") = true -> exists j, int_of (Some "-1") = Ok j).
Proof.
  apply (results_need_numeric_bounds
           (with_sort (Some true) ascending (Some " 1") (Some "-1")) (answers cab)
           [lc "b" "arn:b"]).
  - vm_compute. reflexivity.
  - reflexivity.
Defined.

(** ** More on the stable sort *)

Section StableSortMore.

Context {A : Type} (le : A -> A -> bool) (P : A -> Prop).

Hypothesis le_total : forall x y, P x -> P y -> le x y = false -> le y x = true.
Hypothesis le_trans :
  forall x y z, P x -> P y -> P z -> le x y = true -> le y z = true -> le x z = true.

Let R (x y : A) : Prop := le x y = true.

(** An element that is below the head goes in front. *)
Lemma insert_below_head (x : A) (l : list A) :
  match l with [] => True | y :: _ => le x y = true end -> insert le x l = x :: l.
Proof. destruct l as [ | y l]; simpl; [reflexivity | intros ->; reflexivity]. Qed.

(** Insertion passes over smaller elements only, so it does not change
    the order among elements that are below one another. *)
Lemma filter_insert (f : A -> bool) (x : A) (l : list A) :
  (forall y, f x = true -> f y = true -> le x y = true) ->
  filter f (insert le x l) = filter f (x :: l).
Proof.
  intros Hf. induction l as [ | y l IH]; [reflexivity | ].
  cbn [insert]. destruct (le x y) eqn:Hxy; [reflexivity | ].
  cbn [filter]. cbn [filter] in IH. rewrite IH.
  destruct (f x) eqn:Fx, (f y) eqn:Fy; try reflexivity.
  rewrite (Hf y eq_refl Fy) in Hxy. discriminate.
Qed.

Lemma filter_stable_sort (f : A -> bool) (l : list A) :
  (forall x y, f x = true -> f y = true -> le x y = true) ->
  filter f (stable_sort le l) = filter f l.
Proof.
  intros Hf. induction l as [ | x l IH]; [reflexivity | ].
  cbn [stable_sort]. rewrite filter_insert by (intros y; apply Hf).
  cbn [filter]. rewrite IH. reflexivity.
Qed.

(** A sorted list is left as it is. *)
Lemma stable_sort_sorted (l : list A) : StronglySorted R l -> stable_sort le l = l.
Proof.
  induction 1 as [ | x l _ IH Hx]; [reflexivity | ].
  cbn [stable_sort]. rewrite IH. apply insert_below_head.
  destruct l as [ | y l]; [exact I | ]. inversion Hx; assumption.
Qed.

(** Filtering a sorted list and inserting commute. *)
Lemma filter_insert_sorted (f : A -> bool) (x : A) (l : list A) :
  P x -> Forall P l -> StronglySorted R l ->
  filter f (insert le x l) = if f x then insert le x (filter f l) else filter f l.
Proof.
  intros Px Pl Hl. induction Hl as [ | y l Hl IH Hy]; cbn [insert filter].
  - destruct (f x); reflexivity.
  - inversion Pl as [ | ? ? Py Pl']; subst. specialize (IH Pl').
    destruct (le x y) eqn:Hxy.
    + cbn [filter]. destruct (f x); [ | reflexivity].
      symmetry. apply insert_below_head.
      destruct (f y); [exact Hxy | ].
      destruct (filter f l) as [ | z m] eqn:E; [exact I | ].
      assert (Hz : In z l).
      { apply (proj1 (filter_In f z l)). rewrite E. left; reflexivity. }
      rewrite Forall_forall in Hy, Pl'.
      apply (le_trans x y z); auto. apply Hy; assumption.
    + cbn [filter]. rewrite IH.
      destruct (f y), (f x); try reflexivity.
      cbn [insert]. rewrite Hxy. reflexivity.
Qed.

Lemma filter_stable_sort_comm (f : A -> bool) (l : list A) :
  Forall P l -> filter f (stable_sort le l) = stable_sort le (filter f l).
Proof.
  induction 1 as [ | x l Px Pl IH]; [reflexivity | ].
  cbn [stable_sort filter].
  rewrite (filter_insert_sorted f x (stable_sort le l) Px).
  - rewrite IH. destruct (f x); reflexivity.
  - rewrite Forall_forall in *. intros y Hy. apply Pl.
    apply (Permutation_in _ (Permutation_sym (stable_sort_Permutation le l))); assumption.
  - apply (stable_sort_StronglySorted le P); assumption.
Qed.

End StableSortMore.

(** Two sorted lists with the same elements are equal, when no two
    different elements are below one another. *)
Lemma StronglySorted_unique {A : Type} (R : A -> A -> Prop) (l1 l2 : list A) :
  (forall x y, In x l1 -> In y l1 -> R x y -> R y x -> x = y) ->
  StronglySorted R l1 -> StronglySorted R l2 -> Permutation l1 l2 -> l1 = l2.
Proof.
  intros Hanti H1; revert l2; induction H1 as [ | x l1 H1 IH Hx]; intros l2 H2 Hp.
  - apply Permutation_nil in Hp. subst; reflexivity.
  - destruct H2 as [ | y l2 H2 Hy].
    + apply Permutation_sym, Permutation_nil in Hp. discriminate.
    + assert (E : x = y).
      { assert (Hxin : In x (y :: l2)) by (apply (Permutation_in _ Hp); left; reflexivity).
        assert (Hyin : In y (x :: l1))
          by (apply (Permutation_in _ (Permutation_sym Hp)); left; reflexivity).
        destruct Hxin as [-> | Hxin]; [reflexivity | ].
        destruct Hyin as [-> | Hyin]; [reflexivity | ].
        rewrite Forall_forall in Hx, Hy.
        apply Hanti; [left; reflexivity | right; assumption | auto | auto]. }
      subst y. f_equal. apply IH.
      * intros a b Ha Hb. apply Hanti; right; assumption.
      * exact H2.
      * apply Permutation_cons_inv in Hp. exact Hp.
Qed.

Lemma NoDup_map_In_inj {A B : Type} (f : A -> B) (l : list A) (x y : A) :
  NoDup (map f l) -> In x l -> In y l -> f x = f y -> x = y.
Proof.
  induction l as [ | z l IH]; simpl; [contradiction | ].
  intros Hnd Hx Hy E. inversion Hnd as [ | ? ? Hz Hnd']; subst.
  destruct Hx as [-> | Hx], Hy as [-> | Hy]; auto.
  - exfalso. apply Hz. rewrite E. apply in_map. assumption.
  - exfalso. apply Hz. rewrite <- E. apply in_map. assumption.
Qed.

Lemma name_le_refl_same (n : string) (a b : data) :
  has_name n a = true -> has_name n b = true -> name_le a b = true.
Proof.
  unfold has_name, name_le. destruct (name a), (name b); try discriminate.
  intros Ha Hb. apply String.eqb_eq in Ha, Hb. subst.
  apply leb_lex_le, lex_le_refl.
Qed.

Lemma name_le_antisym (a b : data) :
  is_str (name a) = true -> is_str (name b) = true ->
  name_le a b = true -> name_le b a = true -> name a = name b.
Proof.
  unfold name_le. destruct (name a) as [ | | | s | | ], (name b) as [ | | | t | | ];
    simpl; try discriminate.
  intros _ _ H1 H2. apply leb_lex_le in H1, H2. f_equal. apply lex_le_antisym; assumption.
Qed.

(** What [list_sort] returns, by cases. *)
Lemma list_sort_cases (reverse : bool) (l out : list data) :
  list_sort reverse l = Ok out ->
  (Forall has_str_name l /\
   out = if reverse then rev (stable_sort name_le (rev l)) else stable_sort name_le l)
  \/ ((List.length l <= 1)%nat /\ out = l).
Proof.
  unfold list_sort. destruct (forallb _ l) eqn:Hstr.
  - intros H; injection H as <-. left. split; [ | reflexivity].
    apply Forall_forall. rewrite forallb_forall in Hstr. exact Hstr.
  - destruct (Nat.leb_spec (List.length l) 1) as [Hlen | Hlen]; [ | discriminate].
    intros H; injection H as <-. right. auto.
Qed.

Lemma list_sort_strings (reverse : bool) (l : list data) :
  Forall has_str_name l ->
  list_sort reverse l =
  Ok (if reverse then rev (stable_sort name_le (rev l)) else stable_sort name_le l).
Proof.
  intros H. unfold list_sort.
  assert (E : forallb (fun e => is_str (name e)) l = true).
  { apply forallb_forall. rewrite Forall_forall in H. exact H. }
  rewrite E. reflexivity.
Qed.

Lemma short_list_rev {A : Type} (l : list A) : (List.length l <= 1)%nat -> rev l = l.
Proof. destruct l as [ | x [ | y l]]; simpl; intros H; try reflexivity; lia. Qed.

Lemma name_le_sorted (l : list data) :
  Forall has_str_name l ->
  StronglySorted (fun a b => name_le a b = true) (stable_sort name_le l).
Proof.
  apply (stable_sort_StronglySorted name_le has_str_name);
    [apply name_le_total | apply name_le_trans].
Qed.

(** ** The sort, further *)

Lemma Forall_Permutation {A : Type} (P : A -> Prop) (l l' : list A) :
  Permutation l l' -> Forall P l -> Forall P l'.
Proof.
  intros Hp H. rewrite Forall_forall in *. intros x Hx. apply H.
  apply (Permutation_in _ (Permutation_sym Hp)). exact Hx.
Qed.

(** X3.  The sort is stable in both directions: the records that share a
    name come out in the order they went in, under [ascending] and under
    [descending] alike. *)
Theorem sort_keeps_same_names_in_order
  (p : params) (kept ordered : list data) (n : string) :
  sort_results p kept = Ok ordered ->
  filter (has_name n) ordered = filter (has_name n) kept.
Proof.
  unfold sort_results. destruct (truthy_bool (sort p)).
  - intros H. apply list_sort_cases in H. destruct H as [[_ ->] | [_ ->]]; [ | reflexivity].
    destruct (is_descending (sort_order p)).
    + rewrite filter_rev, filter_stable_sort, filter_rev, rev_involutive;
        [reflexivity | apply name_le_refl_same].
    + apply filter_stable_sort. apply name_le_refl_same.
  - intros H; injection H as <-. reflexivity.
Qed.

Lemma sort_keeps_same_names_in_order_witness :
  filter (has_name "b") [lc "b" "arn:1"; lc "b" "arn:3"; lc "a" "arn:2"]
  = filter (has_name "b") b1_a_b3.
Proof.
  apply (sort_keeps_same_names_in_order (with_sort (Some true) descending None None)).
  vm_compute. reflexivity.
Defined.

(** X4.  When the names of the results are all different and no bound
    is in use, the [descending] run returns the results of the
    [ascending] run in reverse. *)
Theorem descending_reverses_ascending
  (p : params) (co : list string -> res string) (results : list data) :
  truthy_bool (sort p) = true -> bounds_unused p = true ->
  main (with_order ascending p) co = exit_json results ->
  NoDup (map name results) ->
  main (with_order descending p) co = exit_json (rev results).
Proof.
  intros Hsort Hun H Hnd. apply main_exit_json in H.
  destruct H as (fetched & kept & ordered & Hf & Hk & Ho & Hs).
  rewrite (slice_results_unused (with_order ascending p) ordered Hun) in Hs.
  injection Hs as <-.
  rewrite (main_steps (with_order descending p) co fetched kept (rev ordered) Hf Hk).
  - rewrite (slice_results_unused (with_order descending p) _ Hun). reflexivity.
  - unfold sort_results in *. cbn [sort sort_order with_order is_descending] in *.
    rewrite Hsort in *.
    destruct (list_sort_cases _ _ _ Ho) as [[Hstr E] | [Hlen E]]; cbn iota in E; subst ordered.
    + rewrite (list_sort_strings true kept Hstr). cbn iota. do 2 f_equal.
      pose proof (stable_sort_Permutation name_le kept) as Pk.
      pose proof (stable_sort_Permutation name_le (rev kept)) as Pr.
      apply (StronglySorted_unique (fun a b => name_le a b = true)).
      * intros x y Hx Hy Hxy Hyx.
        assert (Sx : has_str_name x /\ has_str_name y).
        { rewrite Forall_forall in Hstr. split; apply Hstr; apply in_rev;
            apply (Permutation_in _ (Permutation_sym Pr)); assumption. }
        destruct Sx as [Sx Sy].
        apply (NoDup_map_In_inj name (stable_sort name_le kept)).
        -- exact Hnd.
        -- apply (Permutation_in _ Pk), in_rev,
             (Permutation_in _ (Permutation_sym Pr)); assumption.
        -- apply (Permutation_in _ Pk), in_rev,
             (Permutation_in _ (Permutation_sym Pr)); assumption.
        -- apply name_le_antisym; assumption.
      * apply name_le_sorted. apply Forall_rev. exact Hstr.
      * apply name_le_sorted. exact Hstr.
      * rewrite <- Pr, <- Pk. symmetry. apply Permutation_rev.
    + rewrite (short_list_rev kept Hlen).
      destruct kept as [ | x [ | y l]]; simpl in Hlen; try lia;
        unfold list_sort; simpl; try destruct (is_str (name x)); reflexivity.
Qed.

Lemma descending_reverses_ascending_witness :
  main (with_order descending (with_sort (Some true) ascending None None)) (answers cab)
  = exit_json (rev [lc "a" "arn:a"; lc "b" "arn:b"; lc "c" "arn:c"]).
Proof.
  apply descending_reverses_ascending.
  - reflexivity.
  - reflexivity.
  - vm_compute. reflexivity.
  - repeat constructor; simpl; intuition discriminate.
Defined.

(** X5.  Sorting is idempotent: the sorted list, sorted again with the
    same parameters, is itself. *)
Theorem sorting_twice_is_sorting_once (p : params) (kept ordered : list data) :
  sort_results p kept = Ok ordered -> sort_results p ordered = Ok ordered.
Proof.
  unfold sort_results. destruct (truthy_bool (sort p)); [ | intros _; reflexivity].
  intros H. destruct (list_sort_cases _ _ _ H) as [[Hstr E] | [Hlen E]].
  - assert (Hstr' : Forall has_str_name ordered).
    { apply list_sort_Ok in H. destruct H as [H _].
      apply (Forall_Permutation _ _ _ H Hstr). }
    rewrite (list_sort_strings _ ordered Hstr'). f_equal.
    destruct (is_descending (sort_order p)); subst ordered.
    + rewrite rev_involutive. f_equal.
      apply (stable_sort_sorted name_le). apply name_le_sorted, Forall_rev, Hstr.
    + apply (stable_sort_sorted name_le). apply name_le_sorted, Hstr.
  - subst ordered. exact H.
Qed.

Lemma sorting_twice_is_sorting_once_witness :
  sort_results (with_sort (Some true) descending None None)
    [lc "b" "arn:1"; lc "b" "arn:3"; lc "a" "arn:2"]
  = Ok [lc "b" "arn:1"; lc "b" "arn:3"; lc "a" "arn:2"].
Proof.
  apply (sorting_twice_is_sorting_once _ b1_a_b3). vm_compute. reflexivity.
Defined.

(** ** The filter within the whole run *)

Lemma comprehension_In {A : Type} (test : A -> res bool) (l out : list A) (x : A) :
  comprehension test l = Ok out -> (In x out <-> In x l /\ test x = Ok true).
Proof.
  intros H. apply comprehension_Ok in H. destruct H as (keep & Hall & ->).
  rewrite filter_In. rewrite Forall_forall in Hall. split.
  - intros [Hin Hk]. split; [exact Hin | ]. rewrite (Hall x Hin), Hk. reflexivity.
  - intros [Hin Ht]. split; [exact Hin | ]. rewrite (Hall x Hin) in Ht. congruence.
Qed.

Lemma sort_results_In (p : params) (kept ordered : list data) (d : data) :
  sort_results p kept = Ok ordered -> (In d ordered <-> In d kept).
Proof.
  intros H. apply sort_results_Ok in H. destruct (truthy_bool (sort p)).
  - destruct H as [H _]. split; apply Permutation_in; [symmetry | ]; exact H.
  - subst. reflexivity.
Qed.

Lemma slice_results_In (p : params) (ordered results : list data) (d : data) :
  slice_results p ordered = Ok results -> In d results -> In d ordered.
Proof.
  intros H Hd. apply slice_results_Ok in H. destruct H as [(start & stop & ->) _].
  destruct (slice_infix start stop ordered) as (before & after & E).
  rewrite E. apply in_or_app. right. apply in_or_app. left. exact Hd.
Qed.

Lemma regex_match_true (regex : Re.regex) (v : json) :
  regex_match regex v = Ok true <-> exists s, v = JStr s /\ matches_at_start regex s.
Proof.
  unfold regex_match. destruct v as [ | | | s | | ];
    try (split; [discriminate | intros (s & E & _); discriminate]).
  split.
  - intros H. injection H as H. apply matches_spec in H. eauto.
  - intros (s' & E & H). injection E as ->. apply matches_spec in H.
    rewrite H. reflexivity.
Qed.

(** What the filtering step does with a [name_regex] in use. *)
Lemma filter_results_in_use (p : params) (pat : string) (regex : Re.regex)
      (l : list data) :
  name_regex p = Some pat -> pat <> "" -> re_compile pat = Ok regex ->
  filter_results p l = comprehension (fun result => regex_match regex (name result)) l.
Proof.
  intros Hn Hne Hre. unfold filter_results. rewrite Hn. simpl.
  apply String.eqb_neq in Hne. rewrite Hne. simpl. rewrite Hre. reflexivity.
Qed.

(** X6.  Sorting and slicing never bring back a record the filter
    dropped: every record of the results has a name that [name_regex]
    matches at its start; and when no bound is in use, every fetched
    record with such a name is in the results. *)
Theorem results_match_name_regex
  (p : params) (co : list string -> res string) (results : list data)
  (pat : string) (regex : Re.regex) :
  main p co = exit_json results ->
  name_regex p = Some pat -> pat <> "" -> re_compile pat = Ok regex ->
  (forall d, In d results -> exists s, name d = JStr s /\ matches_at_start regex s) /\
  (bounds_unused p = true ->
   forall fetched d, fetch p co = Ok fetched -> In d fetched ->
     (exists s, name d = JStr s /\ matches_at_start regex s) -> In d results).
Proof.
  intros H Hn Hne Hre. apply main_exit_json in H.
  destruct H as (fetched & kept & ordered & Hf & Hk & Ho & Hs).
  rewrite (filter_results_in_use p pat regex fetched Hn Hne Hre) in Hk.
  split.
  - intros d Hd. apply (slice_results_In _ _ _ _ Hs) in Hd.
    apply (sort_results_In _ _ _ d Ho) in Hd.
    apply (comprehension_In _ _ _ d Hk) in Hd. destruct Hd as [_ Hd].
    apply regex_match_true. exact Hd.
  - intros Hun fetched' d Hf' Hd Hm.
    rewrite (slice_results_unused p ordered Hun) in Hs. injection Hs as <-.
    rewrite Hf in Hf'. injection Hf' as <-.
    apply (sort_results_In _ _ _ d Ho). apply (comprehension_In _ _ _ d Hk).
    split; [exact Hd | apply regex_match_true; exact Hm].
Qed.

Lemma results_match_name_regex_witness :
  (forall d, In d [lc "b" "arn:b"] ->
     exists s, name d = JStr s /\
       matches_at_start
         (Re.Alt (Re.Cat Re.Eps (Re.Chr "a")) (Re.Cat Re.Eps (Re.Chr "b"))) s) /\
  (bounds_unused
     {| region := "eu-west-1"; name_regex := Some "a|b"; sort := Some true;
        sort_order := descending; sort_start := Some "0"; sort_end := Some "-1" |}
   = true ->
   forall fetched d,
     fetch {| region := "eu-west-1"; name_regex := Some "a|b"; sort := Some true;
              sort_order := descending; sort_start := Some "0"; sort_end := Some "-1" |}
       (answers cab) = Ok fetched ->
     In d fetched ->
     (exists s, name d = JStr s /\
        matches_at_start
          (Re.Alt (Re.Cat Re.Eps (Re.Chr "a")) (Re.Cat Re.Eps (Re.Chr "b"))) s) ->
     In d [lc "b" "arn:b"]).
Proof.
  apply (results_match_name_regex _ (answers cab) _ "a|b").
  - vm_compute. reflexivity.
  - reflexivity.
  - discriminate.
  - vm_compute. reflexivity.
Defined.

(** X7.  When no bound is in use, [name_regex] only removes records:
    the results are the results of the run without [name_regex], which
    succeeds too, with some records taken out and the others left in
    their order. *)
Theorem name_regex_only_removes
  (p : params) (co : list string -> res string) (results : list data) :
  main p co = exit_json results -> bounds_unused p = true ->
  exists all keep,
    main (without_name_regex p) co = exit_json all /\ results = filter keep all.
Proof.
  intros H Hun. apply main_exit_json in H.
  destruct H as (fetched & kept & ordered & Hf & Hk & Ho & Hs).
  rewrite (slice_results_unused p ordered Hun) in Hs. injection Hs as <-.
  assert (Hun' : bounds_unused (without_name_regex p) = true) by exact Hun.
  assert (Run : forall all,
             sort_results p fetched = Ok all ->
             main (without_name_regex p) co = exit_json all).
  { intros all Hall.
    rewrite (main_steps (without_name_regex p) co fetched fetched all Hf eq_refl Hall).
    rewrite (slice_results_unused _ all Hun'). reflexivity. }
  unfold filter_results in Hk. destruct (truthy_str (name_regex p)).
  - cbn zeta in Hk. apply bind_Ok in Hk. destruct Hk as (regex & _ & Hk).
    apply comprehension_Ok in Hk. destruct Hk as (keep & Htest & ->).
    assert (Hstr : Forall has_str_name fetched).
    { eapply Forall_impl; [ | exact Htest]. unfold has_str_name, regex_match.
      intros d. destruct (name d); try discriminate. reflexivity. }
    unfold sort_results in *. destruct (truthy_bool (sort p)).
    + assert (Hstr' : Forall has_str_name (filter keep fetched)).
      { rewrite Forall_forall in *. intros d Hd. apply Hstr.
        apply filter_In in Hd. tauto. }
      rewrite (list_sort_strings _ _ Hstr') in Ho. injection Ho as <-.
      eexists. exists keep. split; [apply Run, list_sort_strings, Hstr | ].
      destruct (is_descending (sort_order p)).
      * rewrite filter_rev.
        rewrite (filter_stable_sort_comm name_le has_str_name
                   name_le_total name_le_trans keep (rev fetched))
          by (apply Forall_rev; exact Hstr).
        rewrite filter_rev. reflexivity.
      * symmetry.
        apply (filter_stable_sort_comm name_le has_str_name name_le_total name_le_trans).
        exact Hstr.
    + injection Ho as <-. exists fetched, keep. split; [apply Run | ]; reflexivity.
  - injection Hk as <-. exists ordered, (fun _ => true). split; [apply Run; exact Ho | ].
    symmetry. apply forallb_filter_id. apply forallb_forall. reflexivity.
Qed.

Lemma name_regex_only_removes_witness :
  exists all keep,
    main (without_name_regex
            {| region := "eu-west-1"; name_regex := Some "a|c"; sort := Some true;
               sort_order := descending; sort_start := None; sort_end := Some "" |})
      (answers cab) = exit_json all /\
    [lc "c" "arn:c"; lc "a" "arn:a"] = filter keep all.
Proof.
  apply name_regex_only_removes.
  - vm_compute. reflexivity.
  - reflexivity.
Defined.

(** ** The bounds, further *)

Lemma slice_results_both (p : params) (l : list data) (i j : Z) :
  truthy_bool (sort p) = true ->
  truthy_str (sort_start p) = true -> truthy_str (sort_end p) = true ->
  int_of (sort_start p) = Ok i -> int_of (sort_end p) = Ok j ->
  slice_results p l = Ok (slice (Some i) (Some j) l).
Proof.
  unfold slice_results. intros -> -> -> -> ->. reflexivity.
Qed.



(** X9.  With [sort] true and [sort_start] the only bound in use, the
    run drops the first [sort_start] records of the sorted list and
    returns all the others; a negative [sort_start] keeps that many
    records at the end of the list. *)
Theorem sort_start_alone_skips (p : params) (l : list data) (i : Z) :
  truthy_bool (sort p) = true ->
  truthy_str (sort_start p) = true -> truthy_str (sort_end p) = false ->
  int_of (sort_start p) = Ok i ->
  slice_results p l =
  Ok (skipn (Z.to_nat (from_end (Z.of_nat (List.length l)) i)) l).
Proof.
  unfold slice_results. intros -> -> -> ->. simpl. f_equal.
  unfold slice, slice_index, from_end.
  set (n := Z.of_nat (List.length l)).
  set (lo := if (i <? 0)%Z then Z.max 0 (i + n) else Z.min i n).
  set (k := if (i <? 0)%Z then (n + i)%Z else i).
  assert (Hn : (0 <= n)%Z) by (unfold n; lia).
  assert (Hlo : lo = Z.max 0 (Z.min k n)).
  { unfold lo, k. destruct (i <? 0)%Z eqn:E; lia. }
  rewrite firstn_all2 by (rewrite length_skipn; fold n; lia).
  destruct (Z_le_gt_dec k n) as [Hle | Hgt].
  - replace (Z.to_nat lo) with (Z.to_nat k) by lia. reflexivity.
  - rewrite (skipn_all2 (n := Z.to_nat lo)) by (fold n; lia).
    rewrite (skipn_all2 (n := Z.to_nat k)) by (fold n; lia). reflexivity.
Qed.

Lemma sort_start_alone_skips_witness :
  slice_results (with_sort (Some true) ascending (Some "-2") (Some "")) abc
  = Ok [lc "b" "arn:b"; lc "c" "arn:c"].
Proof.
  apply (sort_start_alone_skips
           (with_sort (Some true) ascending (Some "-2") (Some "")) abc (-2)%Z);
    reflexivity.
Defined.

(** X10.  With [sort] true and [sort_end] the only bound in use, the run
    returns the first [sort_end] records of the sorted list; a negative
    [sort_end] leaves out that many records at the end of the list. *)
Theorem sort_end_alone_keeps (p : params) (l : list data) (j : Z) :
  truthy_bool (sort p) = true ->
  truthy_str (sort_start p) = false -> truthy_str (sort_end p) = true ->
  int_of (sort_end p) = Ok j ->
  slice_results p l =
  Ok (firstn (Z.to_nat (from_end (Z.of_nat (List.length l)) j)) l).
Proof.
  unfold slice_results. intros -> -> -> ->. simpl. f_equal.
  unfold slice, slice_index, from_end. simpl skipn. rewrite Z.sub_0_r.
  apply firstn_min_eq. destruct (j <? 0)%Z eqn:E; lia.
Qed.

Lemma sort_end_alone_keeps_witness :
  slice_results (with_sort (Some true) ascending None (Some "2")) abc
  = Ok [lc "a" "arn:a"; lc "b" "arn:b"].
Proof.
  apply (sort_end_alone_keeps
           (with_sort (Some true) ascending None (Some "2")) abc 2%Z);
    reflexivity.
Defined.

(** ** Parameters that play no part *)

(** X11.  With [sort] absent or false, only [region] and [name_regex]
    count: [sort_order] is ignored with the bounds, and [sort=false]
    gives the run that an absent [sort] gives. *)
Theorem without_sort_only_region_and_name_regex_count
  (p p' : params) (co : list string -> res string) :
  region p = region p' -> name_regex p = name_regex p' ->
  truthy_bool (sort p) = false -> truthy_bool (sort p') = false ->
  main p co = main p' co.
Proof.
  intros Hr Hn Hs Hs'.
  assert (F : fetch p co = fetch p' co)
    by (rewrite !fetch_eq; unfold argv; rewrite Hr; reflexivity).
  assert (K : forall l, filter_results p l = filter_results p' l)
    by (intros l; unfold filter_results; rewrite Hn; reflexivity).
  unfold main. rewrite F. destruct (fetch p' co) as [fetched | e | ]; simpl; try reflexivity.
  rewrite K. destruct (filter_results p' fetched) as [kept | e | ]; simpl; try reflexivity.
  unfold sort_results. rewrite Hs, Hs'.
  rewrite !slice_results_without_sort by assumption. reflexivity.
Qed.

Lemma without_sort_only_region_and_name_regex_count_witness :
  main (with_sort (Some false) descending (Some "x") None) (answers cab)
  = main (with_sort None ascending None (Some "1")) (answers cab).
Proof.
  apply without_sort_only_region_and_name_regex_count; reflexivity.
Defined.

(** ** Names that are not strings *)

Lemma comprehension_Raise {A : Type} (test : A -> res bool) (l : list A) (e : exception) :
  Forall (fun x => test x = Raise e \/ exists b, test x = Ok b) l ->
  Exists (fun x => test x = Raise e) l ->
  comprehension test l = Raise e.
Proof.
  intros Hall Hex. induction Hex as [x l Hx | x l _ IH]; simpl.
  - rewrite Hx. reflexivity.
  - inversion Hall as [ | ? ? Hx Hl]; subst.
    destruct Hx as [-> | (b & ->)]; simpl; [reflexivity | ].
    rewrite (IH Hl). reflexivity.
Qed.

(** X12.  The handler of [TypeError] covers the slicing only: with a
    [name_regex] in use, an entry whose name is not a string ends the
    run with the [TypeError] of [regex.match], uncaught, and not with
    the message about numeric values. *)
Theorem name_that_is_no_string_is_uncaught
  (p : params) (co : list string -> res string) (fetched : list data)
  (pat : string) (regex : Re.regex) :
  fetch p co = Ok fetched ->
  name_regex p = Some pat -> pat <> "" -> re_compile pat = Ok regex ->
  Exists (fun d => is_str (name d) = false) fetched ->
  main p co = uncaught TypeError.
Proof.
  intros Hf Hn Hne Hre Hex. apply (main_filter_Raise p co fetched); [exact Hf | ].
  rewrite (filter_results_in_use p pat regex fetched Hn Hne Hre).
  apply comprehension_Raise.
  - apply Forall_forall. intros d _. unfold regex_match.
    destruct (name d); eauto.
  - eapply Exists_impl; [ | exact Hex]. intros d. unfold regex_match.
    destruct (name d); simpl; try discriminate; reflexivity.
Qed.

Lemma name_that_is_no_string_is_uncaught_witness :
  main (with_name_regex (Some "lc"))
    (answers "{'LaunchConfigurations': [
                 {'LaunchConfigurationName': 'lc-a', 'LaunchConfigurationARN': 'arn:a'},
                 {'LaunchConfigurationName': null, 'LaunchConfigurationARN': 'arn:b'}]}")
  = uncaught TypeError.
Proof.
  apply (name_that_is_no_string_is_uncaught _ _
           [lc "lc-a" "arn:a"; {| arn := JStr "arn:b"; name := JNull |}] "lc"
           (Re.Cat (Re.Cat Re.Eps (Re.Chr "l")) (Re.Chr "c"))).
  - vm_compute. reflexivity.
  - reflexivity.
  - discriminate.
  - vm_compute. reflexivity.
  - apply Exists_cons_tl. apply Exists_cons_hd. reflexivity.
Defined.

(** ** Consecutive pages *)

Lemma firstn_add_skipn {A : Type} (x y : nat) (l : list A) :
  firstn x l ++ firstn y (skipn x l) = firstn (x + y) l.
Proof.
  revert l; induction x as [ | x IH]; intros l; [reflexivity | ].
  destruct l as [ | a l]; simpl.
  - rewrite firstn_nil. reflexivity.
  - rewrite IH. reflexivity.
Qed.

Lemma skipn_add {A : Type} (x y : nat) (l : list A) :
  skipn (x + y) l = skipn y (skipn x l).
Proof.
  revert l; induction x as [ | x IH]; intros l; [reflexivity | ].
  destruct l as [ | a l]; simpl; [rewrite skipn_nil; reflexivity | apply IH].
Qed.

(** Two slices that meet make the slice from the first start to the
    last stop. *)
Lemma slice_app {A : Type} (i j k : Z) (l : list A) :
  (0 <= i <= j)%Z -> (j <= k)%Z ->
  slice (Some i) (Some j) l ++ slice (Some j) (Some k) l = slice (Some i) (Some k) l.
Proof.
  intros Hij Hjk. unfold slice, slice_index.
  destruct (Z.ltb_spec i 0) as [ | _]; [lia | ].
  destruct (Z.ltb_spec j 0) as [ | _]; [lia | ].
  destruct (Z.ltb_spec k 0) as [ | _]; [lia | ].
  set (n := Z.of_nat (List.length l)).
  replace (Z.to_nat (Z.min j n)) with (Z.to_nat (Z.min i n) + Z.to_nat (Z.min j n - Z.min i n))%nat
    by lia.
  rewrite skipn_add, firstn_add_skipn. f_equal. lia.
Qed.

(** X13.  Consecutive pages neither overlap nor leave a gap: with [sort]
    true and numerals [i <= j <= k] that are not negative, the records
    from [i] to [j] followed by the records from [j] to [k] are the
    records from [i] to [k]. *)
Theorem consecutive_pages_join
  (p : params) (l : list data) (a b c : string) (i j k : Z) :
  truthy_bool (sort p) = true ->
  a <> "" -> b <> "" -> c <> "" ->
  int a = Ok i -> int b = Ok j -> int c = Ok k ->
  (0 <= i <= j)%Z -> (j <= k)%Z ->
  exists first second,
    slice_results (with_bounds (Some a) (Some b) p) l = Ok first /\
    slice_results (with_bounds (Some b) (Some c) p) l = Ok second /\
    slice_results (with_bounds (Some a) (Some c) p) l = Ok (first ++ second).
Proof.
  intros Hs Ha Hb Hc Hi Hj Hk Hij Hjk.
  apply String.eqb_neq in Ha, Hb, Hc.
  exists (slice (Some i) (Some j) l), (slice (Some j) (Some k) l).
  rewrite slice_app by assumption.
  repeat split; apply slice_results_both; simpl;
    rewrite ?Ha, ?Hb, ?Hc; try reflexivity; assumption.
Qed.

Lemma consecutive_pages_join_witness :
  exists first second,
    slice_results
      (with_bounds (Some "0") (Some "2") (with_sort (Some true) ascending None None)) abc
    = Ok first /\
    slice_results
      (with_bounds (Some "2") (Some "5") (with_sort (Some true) ascending None None)) abc
    = Ok second /\
    slice_results
      (with_bounds (Some "0") (Some "5") (with_sort (Some true) ascending None None)) abc
    = Ok (first ++ second).
Proof.
  apply (consecutive_pages_join _ abc "0" "2" "5" 0 2 5);
    try reflexivity; try discriminate; lia.
Defined.
